(** * BubblePopper: the game screen of [src/GameScreen.js]

    A shallow embedding of the game core of the React Native component
    [GameScreen]: spawn scheduling, bubble motion, hit detection, the
    countdown, the gun and the gesture handlers, together with the host
    facilities the component relies on (the timer table behind
    [setInterval]/[setTimeout], the responder props of the game area).

    Conventions.
    - JavaScript numbers that hold pixel coordinates are exact rationals
      ([Q]); counters, scores, seconds and [Date.now()] are integers ([Z]).
    - [useState] cells and [useRef] cells are the fields of one record
      [State]; a handler is a function [State -> State] and runs to
      completion before the next one (one event-loop task at a time).
      The updates a handler makes are rendered before the next event
      arrives, except where the update queue is modelled (the end of the
      definitions), for a shot that arrives while a timer's update waits.
    - A closure created during a render reads the [useState] values of
      that render.  Handlers therefore take the render they were created
      in as a first argument ([render : State]); refs and state setters
      are read from the live state. *)

From Stdlib Require Import ZArith QArith Qabs Qminmax Lqa.
From stdpp Require Import gmap strings list fin_maps.

Local Open Scope Q_scope.

(** ** Numbers *)

(** [a < b] on numbers, as a boolean test. *)
Definition Qltb (a b : Q) : bool := negb (Qle_bool b a).

(** ** Host interface: [Dimensions.get('window')] *)

Class Dimensions : Type := { screenWidth : Q; screenHeight : Q }.

(** ** Bubbles *)

Module Bubble.
Record t : Type := mk { id : Z; x : Q; y : Q; radius : Q }.

(** [{ ...bubble, y: v }] *)
Definition with_y (v : Q) (b : t) : t :=
  {| id := id b; x := x b; y := v; radius := radius b |}.
End Bubble.

(** ** Timers of the host ([setInterval], [setTimeout]) *)

Inductive Callback : Type :=
| SpawnBubbleCb    (* spawnBubble *)
| CountdownCb      (* the countdown arrow function of startGame *)
| MoveCb           (* the arrow function of the motion effect *)
| HideLaserCb.     (* () => setLaserVisible(false) *)

Record Timer : Type := { callback : Callback; repeats : bool; delay : Z }.

Global Instance Callback_eq_dec : EqDecision Callback.
Proof. solve_decision. Defined.

(** ** Component state: [useState] cells, [useRef] cells, host timers *)

Record State : Type := {
  (* useState *)
  gameStarted : bool;
  gameOver : bool;
  score : Z;
  timeLeft : Z;
  bubbles : list Bubble.t;
  laserVisible : bool;
  gunPosition : Q;
  (* useRef *)
  tapStartTime : Z;
  tapStartX : Q;
  bubbleIdRef : Z;
  timerRef : option positive;
  bubbleTimerRef : option positive;
  laserTimeoutRef : option positive;
  (* the interval handle held by the cleanup of the motion effect *)
  moveInterval : option positive;
  (* host: active timers, next handle to hand out *)
  timers : gmap positive Timer;
  nextTimerId : positive
}.

Definition setGameStarted (v : bool) (s : State) : State :=
  {| gameStarted := v; gameOver := gameOver s; score := score s;
     timeLeft := timeLeft s; bubbles := bubbles s;
     laserVisible := laserVisible s; gunPosition := gunPosition s;
     tapStartTime := tapStartTime s; tapStartX := tapStartX s;
     bubbleIdRef := bubbleIdRef s; timerRef := timerRef s;
     bubbleTimerRef := bubbleTimerRef s;
     laserTimeoutRef := laserTimeoutRef s; moveInterval := moveInterval s;
     timers := timers s; nextTimerId := nextTimerId s |}.

Definition setGameOver (v : bool) (s : State) : State :=
  {| gameStarted := gameStarted s; gameOver := v; score := score s;
     timeLeft := timeLeft s; bubbles := bubbles s;
     laserVisible := laserVisible s; gunPosition := gunPosition s;
     tapStartTime := tapStartTime s; tapStartX := tapStartX s;
     bubbleIdRef := bubbleIdRef s; timerRef := timerRef s;
     bubbleTimerRef := bubbleTimerRef s;
     laserTimeoutRef := laserTimeoutRef s; moveInterval := moveInterval s;
     timers := timers s; nextTimerId := nextTimerId s |}.

Definition setScore (v : Z) (s : State) : State :=
  {| gameStarted := gameStarted s; gameOver := gameOver s; score := v;
     timeLeft := timeLeft s; bubbles := bubbles s;
     laserVisible := laserVisible s; gunPosition := gunPosition s;
     tapStartTime := tapStartTime s; tapStartX := tapStartX s;
     bubbleIdRef := bubbleIdRef s; timerRef := timerRef s;
     bubbleTimerRef := bubbleTimerRef s;
     laserTimeoutRef := laserTimeoutRef s; moveInterval := moveInterval s;
     timers := timers s; nextTimerId := nextTimerId s |}.

Definition setTimeLeft (v : Z) (s : State) : State :=
  {| gameStarted := gameStarted s; gameOver := gameOver s; score := score s;
     timeLeft := v; bubbles := bubbles s;
     laserVisible := laserVisible s; gunPosition := gunPosition s;
     tapStartTime := tapStartTime s; tapStartX := tapStartX s;
     bubbleIdRef := bubbleIdRef s; timerRef := timerRef s;
     bubbleTimerRef := bubbleTimerRef s;
     laserTimeoutRef := laserTimeoutRef s; moveInterval := moveInterval s;
     timers := timers s; nextTimerId := nextTimerId s |}.

Definition setBubbles (v : list Bubble.t) (s : State) : State :=
  {| gameStarted := gameStarted s; gameOver := gameOver s; score := score s;
     timeLeft := timeLeft s; bubbles := v;
     laserVisible := laserVisible s; gunPosition := gunPosition s;
     tapStartTime := tapStartTime s; tapStartX := tapStartX s;
     bubbleIdRef := bubbleIdRef s; timerRef := timerRef s;
     bubbleTimerRef := bubbleTimerRef s;
     laserTimeoutRef := laserTimeoutRef s; moveInterval := moveInterval s;
     timers := timers s; nextTimerId := nextTimerId s |}.

Definition setLaserVisible (v : bool) (s : State) : State :=
  {| gameStarted := gameStarted s; gameOver := gameOver s; score := score s;
     timeLeft := timeLeft s; bubbles := bubbles s;
     laserVisible := v; gunPosition := gunPosition s;
     tapStartTime := tapStartTime s; tapStartX := tapStartX s;
     bubbleIdRef := bubbleIdRef s; timerRef := timerRef s;
     bubbleTimerRef := bubbleTimerRef s;
     laserTimeoutRef := laserTimeoutRef s; moveInterval := moveInterval s;
     timers := timers s; nextTimerId := nextTimerId s |}.

Definition setGunPosition (v : Q) (s : State) : State :=
  {| gameStarted := gameStarted s; gameOver := gameOver s; score := score s;
     timeLeft := timeLeft s; bubbles := bubbles s;
     laserVisible := laserVisible s; gunPosition := v;
     tapStartTime := tapStartTime s; tapStartX := tapStartX s;
     bubbleIdRef := bubbleIdRef s; timerRef := timerRef s;
     bubbleTimerRef := bubbleTimerRef s;
     laserTimeoutRef := laserTimeoutRef s; moveInterval := moveInterval s;
     timers := timers s; nextTimerId := nextTimerId s |}.

Definition setTapStartTime (v : Z) (s : State) : State :=
  {| gameStarted := gameStarted s; gameOver := gameOver s; score := score s;
     timeLeft := timeLeft s; bubbles := bubbles s;
     laserVisible := laserVisible s; gunPosition := gunPosition s;
     tapStartTime := v; tapStartX := tapStartX s;
     bubbleIdRef := bubbleIdRef s; timerRef := timerRef s;
     bubbleTimerRef := bubbleTimerRef s;
     laserTimeoutRef := laserTimeoutRef s; moveInterval := moveInterval s;
     timers := timers s; nextTimerId := nextTimerId s |}.

Definition setTapStartX (v : Q) (s : State) : State :=
  {| gameStarted := gameStarted s; gameOver := gameOver s; score := score s;
     timeLeft := timeLeft s; bubbles := bubbles s;
     laserVisible := laserVisible s; gunPosition := gunPosition s;
     tapStartTime := tapStartTime s; tapStartX := v;
     bubbleIdRef := bubbleIdRef s; timerRef := timerRef s;
     bubbleTimerRef := bubbleTimerRef s;
     laserTimeoutRef := laserTimeoutRef s; moveInterval := moveInterval s;
     timers := timers s; nextTimerId := nextTimerId s |}.

Definition setBubbleIdRef (v : Z) (s : State) : State :=
  {| gameStarted := gameStarted s; gameOver := gameOver s; score := score s;
     timeLeft := timeLeft s; bubbles := bubbles s;
     laserVisible := laserVisible s; gunPosition := gunPosition s;
     tapStartTime := tapStartTime s; tapStartX := tapStartX s;
     bubbleIdRef := v; timerRef := timerRef s;
     bubbleTimerRef := bubbleTimerRef s;
     laserTimeoutRef := laserTimeoutRef s; moveInterval := moveInterval s;
     timers := timers s; nextTimerId := nextTimerId s |}.

Definition setTimerRef (v : option positive) (s : State) : State :=
  {| gameStarted := gameStarted s; gameOver := gameOver s; score := score s;
     timeLeft := timeLeft s; bubbles := bubbles s;
     laserVisible := laserVisible s; gunPosition := gunPosition s;
     tapStartTime := tapStartTime s; tapStartX := tapStartX s;
     bubbleIdRef := bubbleIdRef s; timerRef := v;
     bubbleTimerRef := bubbleTimerRef s;
     laserTimeoutRef := laserTimeoutRef s; moveInterval := moveInterval s;
     timers := timers s; nextTimerId := nextTimerId s |}.

Definition setBubbleTimerRef (v : option positive) (s : State) : State :=
  {| gameStarted := gameStarted s; gameOver := gameOver s; score := score s;
     timeLeft := timeLeft s; bubbles := bubbles s;
     laserVisible := laserVisible s; gunPosition := gunPosition s;
     tapStartTime := tapStartTime s; tapStartX := tapStartX s;
     bubbleIdRef := bubbleIdRef s; timerRef := timerRef s;
     bubbleTimerRef := v;
     laserTimeoutRef := laserTimeoutRef s; moveInterval := moveInterval s;
     timers := timers s; nextTimerId := nextTimerId s |}.

Definition setLaserTimeoutRef (v : option positive) (s : State) : State :=
  {| gameStarted := gameStarted s; gameOver := gameOver s; score := score s;
     timeLeft := timeLeft s; bubbles := bubbles s;
     laserVisible := laserVisible s; gunPosition := gunPosition s;
     tapStartTime := tapStartTime s; tapStartX := tapStartX s;
     bubbleIdRef := bubbleIdRef s; timerRef := timerRef s;
     bubbleTimerRef := bubbleTimerRef s;
     laserTimeoutRef := v; moveInterval := moveInterval s;
     timers := timers s; nextTimerId := nextTimerId s |}.

Definition setMoveInterval (v : option positive) (s : State) : State :=
  {| gameStarted := gameStarted s; gameOver := gameOver s; score := score s;
     timeLeft := timeLeft s; bubbles := bubbles s;
     laserVisible := laserVisible s; gunPosition := gunPosition s;
     tapStartTime := tapStartTime s; tapStartX := tapStartX s;
     bubbleIdRef := bubbleIdRef s; timerRef := timerRef s;
     bubbleTimerRef := bubbleTimerRef s;
     laserTimeoutRef := laserTimeoutRef s; moveInterval := v;
     timers := timers s; nextTimerId := nextTimerId s |}.

Definition setTimers (v : gmap positive Timer) (n : positive) (s : State)
  : State :=
  {| gameStarted := gameStarted s; gameOver := gameOver s; score := score s;
     timeLeft := timeLeft s; bubbles := bubbles s;
     laserVisible := laserVisible s; gunPosition := gunPosition s;
     tapStartTime := tapStartTime s; tapStartX := tapStartX s;
     bubbleIdRef := bubbleIdRef s; timerRef := timerRef s;
     bubbleTimerRef := bubbleTimerRef s;
     laserTimeoutRef := laserTimeoutRef s; moveInterval := moveInterval s;
     timers := v; nextTimerId := n |}.

(** [setInterval(cb, ms)]: registers a repeating timer under a handle that
    was never handed out before and returns the handle. *)
Definition setInterval (cb : Callback) (ms : Z) (s : State)
  : positive * State :=
  let h := nextTimerId s in
  (h, setTimers (<[h := {| callback := cb; repeats := true; delay := ms |}]>
                   (timers s)) (Pos.succ h) s).

(** [setTimeout(cb, ms)]: the same with a one-shot timer. *)
Definition setTimeout (cb : Callback) (ms : Z) (s : State)
  : positive * State :=
  let h := nextTimerId s in
  (h, setTimers (<[h := {| callback := cb; repeats := false; delay := ms |}]>
                   (timers s)) (Pos.succ h) s).

(** [clearInterval(ref.current)]: [None] is [null]; clearing a handle that
    is not active does nothing. *)
Definition clearInterval (h : option positive) (s : State) : State :=
  match h with
  | Some i => setTimers (delete i (timers s)) (nextTimerId s) s
  | None => s
  end.

Definition clearTimeout (h : option positive) (s : State) : State :=
  clearInterval h s.

(** ** The component *)

Section GameScreen.
Context `{Dimensions}.

Definition gunWidth : Q := 60.
Definition TAP_MAX_DURATION : Z := 200.
Definition TAP_MAX_MOVEMENT : Q := 10.

(** The first render: the initial values of the [useState] and [useRef]
    cells; no timer is active. *)
Definition initial : State :=
  {| gameStarted := false; gameOver := false; score := 0; timeLeft := 120;
     bubbles := []; laserVisible := false;
     gunPosition := screenWidth / 2 - gunWidth / 2;
     tapStartTime := 0; tapStartX := 0;
     bubbleIdRef := 1; timerRef := None; bubbleTimerRef := None;
     laserTimeoutRef := None; moveInterval := None;
     timers := ∅; nextTimerId := 1%positive |}.

(** [const gunCenterX = gunPosition + gunWidth / 2], computed per render. *)
Definition gunCenterX (render : State) : Q :=
  gunPosition render + gunWidth / 2.

(** *** Hit detection *)

(** The test of the [forEach] body of [checkHits], on exact numbers (the
    rounding of the addition and the subtraction is not modelled). *)
Definition isHit (laserX : Q) (bubble : Bubble.t) : bool :=
  let bubbleCenterX := Bubble.x bubble + Bubble.radius bubble in
  Qle_bool (Qabs (bubbleCenterX - laserX)) (Bubble.radius bubble).

(** The [forEach] loop of [checkHits]: it pushes the ids of the hit bubbles
    on [hitBubbleIds] and counts them in [hitCount]. *)
Definition scanHits (laserX : Q) (prevBubbles : list Bubble.t)
  : list Z * Z :=
  foldl (λ '(hitBubbleIds, hitCount) bubble,
           if isHit laserX bubble
           then (hitBubbleIds ++ [Bubble.id bubble], (hitCount + 1)%Z)
           else (hitBubbleIds, hitCount))
        ([], 0%Z) prevBubbles.

(** [checkHits(laserX)] when React calls the function passed to
    [setBubbles] once, as it does when no other update of the cell is
    waiting to be rendered: one functional update of [bubbles]; the score
    is bumped from inside it.  The function on its own is [hitsUpdater]
    below; [fireLaserOverTick] is a shot whose function is called twice. *)
Definition checkHits (laserX : Q) (s : State) : State :=
  let prevBubbles := bubbles s in
  let '(hitBubbleIds, hitCount) := scanHits laserX prevBubbles in
  let s := if (0 <? hitCount)%Z then setScore (score s + hitCount)%Z s
           else s in
  setBubbles
    (filter (λ bubble, Bubble.id bubble ∉ hitBubbleIds) prevBubbles) s.

(** [fireLaser()], as created in the render [render]. *)
Definition fireLaser (render : State) (s : State) : State :=
  let s := match laserTimeoutRef s with
           | Some _ => clearTimeout (laserTimeoutRef s) s
           | None => s
           end in
  let s := setLaserVisible true s in
  let s := checkHits (gunCenterX render) s in
  let '(h, s) := setTimeout HideLaserCb 300 s in
  setLaserTimeoutRef (Some h) s.

(** [handleTap()], as created in the render [render]. *)
Definition handleTap (render : State) (s : State) : State :=
  if negb (gameStarted render) || gameOver render then s
  else fireLaser render s.

(** *** Spawner *)

(** [spawnBubble()]; [rnd] is the value returned by [Math.random()]. *)
Definition spawnBubble (rnd : Q) (s : State) : State :=
  let radius := 30 in
  let maxX := screenWidth - radius * 2 in
  let newBubble :=
    {| Bubble.id := bubbleIdRef s; Bubble.x := rnd * maxX;
       Bubble.y := screenHeight - 100; Bubble.radius := radius |} in
  let s := setBubbleIdRef (bubbleIdRef s + 1)%Z s in
  setBubbles (bubbles s ++ [newBubble]) s.

(** *** Round lifecycle *)

(** The countdown callback installed by [startGame]. *)
Definition countdown (s : State) : State :=
  let prev := timeLeft s in
  if (prev <=? 1)%Z then
    let s := clearInterval (timerRef s) s in
    let s := clearInterval (bubbleTimerRef s) s in
    let s := setGameOver true s in
    setTimeLeft 0 s
  else setTimeLeft (prev - 1)%Z s.

Definition startGame (s : State) : State :=
  let s := setGameStarted true s in
  let s := setGameOver false s in
  let s := setScore 0 s in
  let s := setTimeLeft 120 s in
  let s := setBubbles [] s in
  let s := setLaserVisible false s in
  let s := setBubbleIdRef 1 s in
  let '(h, s) := setInterval SpawnBubbleCb 500 s in
  let s := setBubbleTimerRef (Some h) s in
  let '(h, s) := setInterval CountdownCb 1000 s in
  setTimerRef (Some h) s.

Definition resetGame (s : State) : State :=
  let s := setGameStarted false s in
  let s := setGameOver false s in
  let s := setBubbles [] s in
  let s := setScore 0 s in
  let s := setTimeLeft 120 s in
  let s := setLaserVisible false s in
  let s := setBubbleIdRef 1 s in
  let s := match timerRef s with
           | Some _ => clearInterval (timerRef s) s
           | None => s
           end in
  match bubbleTimerRef s with
  | Some _ => clearInterval (bubbleTimerRef s) s
  | None => s
  end.

(** *** Motion *)

(** The callback of the motion interval. *)
Definition moveBubbles (s : State) : State :=
  setBubbles
    (filter (λ bubble, Qltb (-60) (Bubble.y bubble))
       ((λ bubble, Bubble.with_y (Bubble.y bubble - 2) bubble)
          <$> bubbles s)) s.

(** The motion effect, [useEffect(..., [gameStarted, gameOver])]: its body
    and the cleanup it returned the last time it ran. *)
Definition motionEffect (s : State) : State :=
  if negb (gameStarted s) || gameOver s then setMoveInterval None s
  else let '(h, s) := setInterval MoveCb 16 s in
       setMoveInterval (Some h) s.

Definition motionCleanup (s : State) : State :=
  clearInterval (moveInterval s) s.

(** After a handler has run the component renders again; the effect is
    re-run (cleanup first) when one of its dependencies changed. *)
Definition commit (prev s : State) : State :=
  if bool_decide (gameStarted prev = gameStarted s
                  ∧ gameOver prev = gameOver s)
  then s
  else motionEffect (motionCleanup s).

(** *** Gestures *)

(** The fields of PanResponder's [gestureState] that the handlers read. *)
Record GestureState : Type := { x0 : Q; moveX : Q; dx : Q }.

(** [now] is the value of [Date.now()]. *)
Definition onPanResponderGrant (g : GestureState) (now : Z) (s : State)
  : State :=
  let s := setTapStartTime now s in
  let s := setTapStartX (x0 g) s in
  let newX := x0 g - gunWidth / 2 in
  setGunPosition (Qmax 0 (Qmin newX (screenWidth - gunWidth))) s.

Definition onPanResponderMove (g : GestureState) (s : State) : State :=
  let newX := moveX g - gunWidth / 2 in
  setGunPosition (Qmax 0 (Qmin newX (screenWidth - gunWidth))) s.

(** [onPanResponderRelease]; the responder is built once
    ([useRef(PanResponder.create(...)).current]), so the [handleTap] it
    calls is the one of the render [render] in which it was built. *)
Definition onPanResponderRelease (render : State) (g : GestureState)
    (now : Z) (s : State) : State :=
  let tapDuration := (now - tapStartTime s)%Z in
  let moveDistance := Qabs (moveX g - tapStartX s) in
  if (tapDuration <? TAP_MAX_DURATION)%Z
     && Qltb moveDistance TAP_MAX_MOVEMENT
  then handleTap render s
  else s.

(** *** Props of the game area

    [{...(running ? panResponder.panHandlers : {})}] followed by
    [{...(running ? { onStartShouldSetResponder, onResponderRelease:
    handleTap } : {})}]: a later spread overrides an earlier one. *)

Inductive Handler : Type :=
| ConstTrue                    (* () => true *)
| PanGrant                     (* panHandlers: calls onPanResponderGrant *)
| PanMove                      (* panHandlers: calls onPanResponderMove *)
| PanRelease (render : State)  (* panHandlers: calls onPanResponderRelease *)
| HandleTap (render : State).  (* handleTap of the given render *)

(** The handlers of [panResponder.panHandlers] for which the configuration
    supplies a callback; the responder belongs to the first render. *)
Definition panHandlers : gmap string Handler :=
  {[ "onStartShouldSetResponder" := ConstTrue;
     "onMoveShouldSetResponder" := ConstTrue;
     "onResponderGrant" := PanGrant;
     "onResponderMove" := PanMove;
     "onResponderRelease" := PanRelease initial ]}.

Definition running (s : State) : bool := gameStarted s && negb (gameOver s).

(** [{...a, ...b}] on prop objects. *)
Definition spread (a b : gmap string Handler) : gmap string Handler := b ∪ a.

Definition gameAreaProps (render : State) : gmap string Handler :=
  spread
    (if running render then panHandlers else ∅)
    (if running render
     then {[ "onStartShouldSetResponder" := ConstTrue;
             "onResponderRelease" := HandleTap render ]}
     else ∅).

Definition invoke (h : Handler) (g : GestureState) (now : Z) (s : State)
  : State :=
  match h with
  | ConstTrue => s
  | PanGrant => onPanResponderGrant g now s
  | PanMove => onPanResponderMove g s
  | PanRelease render => onPanResponderRelease render g now s
  | HandleTap render => handleTap render s
  end.

(** The responder system calls the prop of that name, if there is one. *)
Definition deliver (prop : string) (g : GestureState) (now : Z) (s : State)
  : State :=
  match gameAreaProps s !! prop with
  | Some h => invoke h g now s
  | None => s
  end.

(** *** Events *)

Definition runCallback (cb : Callback) (rnd : Q) (s : State) : State :=
  match cb with
  | SpawnBubbleCb => spawnBubble rnd s
  | CountdownCb => countdown s
  | MoveCb => moveBubbles s
  | HideLaserCb => setLaserVisible false s
  end.

(** The host runs the callback of the timer [h]; a cancelled (or unknown)
    handle runs nothing, a timeout is spent once it has run. *)
Definition fireTimer (h : positive) (rnd : Q) (s : State) : State :=
  match timers s !! h with
  | None => s
  | Some t =>
      let s := if repeats t then s else clearTimeout (Some h) s in
      runCallback (callback t) rnd s
  end.

Inductive Event : Type :=
| PressStartGame                                (* "Start Game" *)
| PressPlayAgain                                (* "Play Again" *)
| ResponderGrant (g : GestureState) (now : Z)   (* gesture start *)
| ResponderMove (g : GestureState)              (* gesture move *)
| ResponderRelease (g : GestureState) (now : Z) (* gesture end *)
| TimerFired (h : positive) (rnd : Q).          (* a timer is due *)

(** The buttons exist only while their overlay is rendered. *)
Definition handle (e : Event) (s : State) : State :=
  match e with
  | PressStartGame =>
      if negb (gameStarted s) && negb (gameOver s) then startGame s else s
  | PressPlayAgain => if gameOver s then resetGame s else s
  | ResponderGrant g now => deliver "onResponderGrant" g now s
  | ResponderMove g => deliver "onResponderMove" g 0%Z s
  | ResponderRelease g now => deliver "onResponderRelease" g now s
  | TimerFired h rnd => fireTimer h rnd s
  end.

Definition step (e : Event) (s : State) : State := commit s (handle e s).

Definition run (es : list Event) (s : State) : State :=
  foldl (λ s e, step e s) s es.

(** [Math.random()] returns a number in [0, 1). *)
Definition wellFormed (e : Event) : Prop :=
  match e with
  | TimerFired _ rnd => 0 <= rnd ∧ rnd < 1
  | _ => True
  end.

Inductive reachable : State → Prop :=
| reachable_initial : reachable initial
| reachable_step e s : reachable s → wellFormed e → reachable (step e s).

End GameScreen.

(** ** The second screen variant: dragging by displacement

    The repository's other screen file shares [checkHits], [spawnBubble],
    [startGame], [resetGame] and the motion effect with the one above and
    differs in the gun's pan handlers, which are modelled here. *)

Module DragScreen.
Section DragScreen.
Context `{Dimensions}.

(** [onPanResponderGrant]: [gunInitialX.current = gunPosition], with the
    [gunPosition] of the render that built the responder; the result is the
    new content of the ref. *)
Definition onPanResponderGrant (render : State) : Q := gunPosition render.

(** [onPanResponderMove]: the position handed to [setGunPosition]. *)
Definition onPanResponderMove (gunInitialX : Q) (g : GestureState) : Q :=
  let newX := gunInitialX + dx g in
  let newX := if Qltb newX 0 then 0 else newX in
  let newX := if Qltb (screenWidth - gunWidth) newX
              then screenWidth - gunWidth else newX in
  newX.

End DragScreen.
End DragScreen.

(** ** Specification vocabulary *)

Section Vocabulary.
Context `{Dimensions}.

(** The closed interval the gun position is clamped to. *)
Definition inGunRange (p : Q) : Prop :=
  0 <= p ∧ p <= screenWidth - gunWidth.

(** No laser timeout is pending. *)
Definition NoLaser (s : State) : Prop :=
  ∀ h t, timers s !! h = Some t → callback t ≠ HideLaserCb.

(** A timer of the given kind is active. *)
Definition active (cb : Callback) (s : State) : Prop :=
  ∃ h t, timers s !! h = Some t ∧ callback t = cb.

(** The event is the firing of the timer [h]. *)
Definition isTick (h : positive) (e : Event) : bool :=
  match e with
  | TimerFired h' _ => bool_decide (h' = h)
  | _ => false
  end.

Definition countTicks (h : positive) (es : list Event) : Z :=
  Z.of_nat (length (filter (λ e, isTick h e) es)).

(** The invariant of the reachable states, first on the round's data:
    live bubbles have pairwise different ids below the id counter, the
    time left stays within the round's 120 seconds. *)
Record DataInv (s : State) : Prop := {
  inv_ids_nodup : NoDup (Bubble.id <$> bubbles s);
  inv_ids_bound :
    ∀ b, b ∈ bubbles s → (1 <= Bubble.id b < bubbleIdRef s)%Z;
  inv_counter : (1 <= bubbleIdRef s)%Z;
  inv_time : (0 <= timeLeft s <= 120)%Z;
  inv_time_running : running s = true → (1 <= timeLeft s)%Z;
  inv_time_over : gameOver s = true → timeLeft s = 0%Z;
  inv_over_started : gameOver s = true → gameStarted s = true;
  inv_score : (0 <= score s)%Z
}.

Definition spawnTimer : Timer :=
  {| callback := SpawnBubbleCb; repeats := true; delay := 500 |}.
Definition countdownTimer : Timer :=
  {| callback := CountdownCb; repeats := true; delay := 1000 |}.
Definition moveTimer : Timer :=
  {| callback := MoveCb; repeats := true; delay := 16 |}.
Definition hideLaserTimer : Timer :=
  {| callback := HideLaserCb; repeats := false; delay := 300 |}.

(** Then on the timers: handles are handed out in increasing order; the
    only laser timeout that can be pending is the one in
    [laserTimeoutRef]; while the round runs, the periodic timers are
    exactly the three held by [bubbleTimerRef], [timerRef] and the motion
    effect; otherwise no periodic timer is active. *)
Record TimerInv (s : State) : Prop := {
  inv_fresh :
    ∀ h t, timers s !! h = Some t → (h < nextTimerId s)%positive;
  inv_laser_ref :
    ∀ h, laserTimeoutRef s = Some h →
         (h < nextTimerId s)%positive
         ∧ ∀ t, timers s !! h = Some t → t = hideLaserTimer;
  inv_laser :
    ∀ h t, timers s !! h = Some t → callback t = HideLaserCb →
           laserTimeoutRef s = Some h;
  inv_stopped :
    running s = false →
    moveInterval s = None
    ∧ ∀ h t, timers s !! h = Some t → callback t = HideLaserCb;
  inv_running :
    running s = true →
    ∃ hs hc hm,
      bubbleTimerRef s = Some hs ∧ timerRef s = Some hc
      ∧ moveInterval s = Some hm
      ∧ timers s !! hs = Some spawnTimer
      ∧ timers s !! hc = Some countdownTimer
      ∧ timers s !! hm = Some moveTimer
      ∧ ∀ h t, timers s !! h = Some t → callback t ≠ HideLaserCb →
               h = hs ∨ h = hc ∨ h = hm
}.

Definition Inv (s : State) : Prop := DataInv s ∧ TimerInv s.

End Vocabulary.

(** ** Sample data *)

(** A 390 x 844 window. *)
Definition phone : Dimensions :=
  {| screenWidth := 390; screenHeight := 844 |}.

Definition bubbleAt (i : Z) (left : Q) : Bubble.t :=
  {| Bubble.id := i; Bubble.x := left; Bubble.y := 400; Bubble.radius := 30 |}.

Definition twoClose : list Bubble.t := [bubbleAt 1 0; bubbleAt 2 10].

Definition touch (startX endX : Q) : GestureState :=
  {| x0 := startX; moveX := endX; dx := endX - startX |}.

(** A round in progress on the sample window: "Start Game" was pressed. *)
Definition started : State := @step phone PressStartGame (@initial phone).

(** The countdown timer of that round fires [n] times. *)
Definition ticks (n : nat) : list Event :=
  replicate n (TimerFired 2 0).

(** A slow drag across the sample window: down at 100, up at 300 a second
    later. *)
Definition slowDrag : list Event :=
  [ResponderGrant (touch 100 100) 0; ResponderMove (touch 100 300);
   ResponderRelease (touch 100 300) 1000].

(** A quick tap at 100: up 150 ms later and 5 px away. *)
Definition quickTap : list Event :=
  [ResponderGrant (touch 100 100) 0; ResponderRelease (touch 100 105) 150].

(** The spawn timer of the sample round fires with [Math.random()] = 9/11:
    the bubble appears at x = 270, centre 300. *)
Definition spawnAt270 : Event := TimerFired 1 (9 # 11).

(** A shot in the last second of the sample round. *)
Definition lateShot : list Event :=
  ticks 119 ++ [ResponderRelease (touch 100 100) 0] ++ ticks 1.

(** * More of the component *)

(** ** Unmount

    The cleanup of the timer effect ([useEffect(() => { return () => ... },
    [])]) and, before it, the cleanup the motion effect returned last. *)

Definition timersCleanup (s : State) : State :=
  let s := match timerRef s with
           | Some _ => clearInterval (timerRef s) s
           | None => s
           end in
  let s := match bubbleTimerRef s with
           | Some _ => clearInterval (bubbleTimerRef s) s
           | None => s
           end in
  match laserTimeoutRef s with
  | Some _ => clearTimeout (laserTimeoutRef s) s
  | None => s
  end.

Definition unmount (s : State) : State := timersCleanup (motionCleanup s).

(** ** What is drawn *)

(** The [Bubble] component: the style of the box it renders. *)
Module BubbleComponent.
Record style : Type := { left : Q; top : Q; width : Q; height : Q }.

Definition render (x y radius : Q) : style :=
  let burgerSize := radius * 2 in
  {| left := x; top := y; width := burgerSize; height := burgerSize |}.
End BubbleComponent.

(** [bubbles.map(bubble => <Bubble key=... x=... y=... radius=... />)]; the
    key is built from the id, which stands for it here. *)
Definition bubbleViews (s : State) : list (Z * BubbleComponent.style) :=
  (λ bubble, (Bubble.id bubble,
              BubbleComponent.render (Bubble.x bubble) (Bubble.y bubble)
                (Bubble.radius bubble))) <$> bubbles s.

(** The two overlays of the render. *)
Definition startOverlay (s : State) : bool :=
  negb (gameStarted s) && negb (gameOver s).

Definition gameOverOverlay (s : State) : bool := gameOver s.

(** ** The gun of the second screen variant

    Its state is the [gunPosition] cell and the [gunInitialX] ref; the pan
    handlers are attached to the gun whatever the state of the round. *)

Module DragGun.
Section DragGun.
Context `{Dimensions}.

(** [useState(screenWidth / 2 - gunWidth / 2)], the position in the first
    render. *)
Definition firstPosition : Q := gunPosition initial.

Record t : Type := { position : Q; gunInitialX : Q }.

(** [useState(...)] and [useRef(gunPosition)]. *)
Definition mount : t :=
  {| position := firstPosition; gunInitialX := firstPosition |}.

(** The responder is built in the first render, so the grant handler
    stores the position of that render. *)
Definition grant (s : t) : t :=
  {| position := position s;
     gunInitialX := DragScreen.onPanResponderGrant initial |}.

Definition move (g : GestureState) (s : t) : t :=
  {| position := DragScreen.onPanResponderMove (gunInitialX s) g;
     gunInitialX := gunInitialX s |}.

End DragGun.
End DragGun.

(** ** More vocabulary *)

Section MoreVocabulary.
Context `{Dimensions}.

(** The states of the round. *)
Inductive Phase : Type := Idle | Running | GameOver.

Definition phase (s : State) : Phase :=
  if gameOver s then GameOver
  else if gameStarted s then Running
  else Idle.

(** What an event can do to a state that satisfies the invariant: the
    handler that runs, if any. *)
Inductive outcome (s : State) : Event → State → Prop :=
| out_none e : outcome s e s
| out_start :
    gameStarted s = false → gameOver s = false →
    outcome s PressStartGame (startGame s)
| out_reset :
    gameOver s = true → outcome s PressPlayAgain (resetGame s)
| out_grant g now :
    running s = true →
    outcome s (ResponderGrant g now) (onPanResponderGrant g now s)
| out_move g :
    running s = true →
    outcome s (ResponderMove g) (onPanResponderMove g s)
| out_fire g now :
    running s = true →
    outcome s (ResponderRelease g now) (fireLaser s s)
| out_spawn h rnd :
    running s = true → bubbleTimerRef s = Some h →
    0 <= rnd → rnd < 1 →
    outcome s (TimerFired h rnd) (spawnBubble rnd s)
| out_countdown h rnd :
    running s = true → timerRef s = Some h →
    outcome s (TimerFired h rnd) (countdown s)
| out_motion h rnd :
    running s = true → moveInterval s = Some h →
    outcome s (TimerFired h rnd) (moveBubbles s)
| out_hide h rnd :
    timers s !! h = Some hideLaserTimer →
    outcome s (TimerFired h rnd)
      (setLaserVisible false (clearTimeout (Some h) s)).

(** The bubble [spawnBubble] creates. *)
Definition newBubble (rnd : Q) (s : State) : Bubble.t :=
  {| Bubble.id := bubbleIdRef s; Bubble.x := rnd * (screenWidth - 30 * 2);
     Bubble.y := screenHeight - 100; Bubble.radius := 30 |}.

(** A bubble one motion tick later. *)
Definition risen (b : Bubble.t) : Bubble.t :=
  Bubble.with_y (Bubble.y b - 2) b.

(** Ids in strictly increasing order. *)
Fixpoint ascending (l : list Z) : Prop :=
  match l with
  | [] => True
  | a :: l => Forall (λ b, (a < b)%Z) l ∧ ascending l
  end.

(** A bubble as the spawner places it and the motion keeps it: radius 30,
    inside the window horizontally, not below its spawn height. *)
Definition wellPlaced (b : Bubble.t) : Prop :=
  Bubble.radius b = 30
  ∧ 0 <= Bubble.x b ∧ Bubble.x b <= screenWidth - 60
  ∧ Bubble.y b <= screenHeight - 100.

(** The state after [n] motion ticks in a row, and how far a bubble has
    risen by then. *)
Definition afterTicks (n : nat) (s : State) : State :=
  Nat.iter n moveBubbles s.

Definition rise (n : nat) : Q := 2 * inject_Z (Z.of_nat n).

(** The number of active timers. *)
Definition activeTimers (s : State) : nat := size (timers s).

End MoreVocabulary.

(** ** More sample data *)

(** Two shots in a row in the sample round. *)
Definition twoShots : list Event :=
  [ResponderRelease (touch 100 100) 0; ResponderRelease (touch 100 100) 50].

(** The sample round with a bubble spawned and moved once. *)
Definition oneBubble : State :=
  @run phone [TimerFired 1 (1 # 2); TimerFired 3 0] started.

(** The sample round after a bubble was spawned and shot by the slow
    drag. *)
Definition afterDrag : State := @run phone (spawnAt270 :: slowDrag) started.

(** The sample round with two bubbles spawned. *)
Definition twoSpawned : State :=
  @run phone [TimerFired 1 (1 # 2); TimerFired 1 (1 # 3)] started.

(** The sample round when the countdown has ended it. *)
Definition finished : State := @run phone (ticks 120) started.

(** * Updater functions and the update queue

    [setBubbles(fn)] does not call [fn].  React (version 18, rendering
    concurrently) appends an update to the queue of the cell, tagged with
    the priority (the "lane") of the event in which the call was made, and
    calls [fn] when a render works through the queue.  A render takes the updates of its own lanes and skips the
    others.  A skipped update stays in the queue together with every
    update behind it, and the render that finally takes it calls the
    functions behind it again, on the state as it was before the skipped
    update ("rebasing").  So the function of an update can be called more
    than once, and whatever it does besides returning the next state is
    done at each call. *)

(** A function passed to [setBubbles]: the list it returns, and beside it
    the increments [n] of the calls [setScore(prevScore => prevScore + n)]
    it makes while it runs. *)
Definition Updater : Type := list Bubble.t → list Bubble.t * list Z.

(** The function that [checkHits(laserX)] passes to [setBubbles]. *)
Definition hitsUpdater (laserX : Q) : Updater :=
  λ prevBubbles,
    let '(hitBubbleIds, hitCount) := scanHits laserX prevBubbles in
    let setScoreCalls := if (0 <? hitCount)%Z then [hitCount] else [] in
    (filter (λ bubble, Bubble.id bubble ∉ hitBubbleIds) prevBubbles,
     setScoreCalls).

(** The function that the motion interval passes to [setBubbles]. *)
Definition moveUpdater : Updater :=
  λ prev,
    (filter (λ bubble, Qltb (-60) (Bubble.y bubble))
       ((λ bubble, Bubble.with_y (Bubble.y bubble - 2) bubble) <$> prev),
     []).

Inductive Lane : Type :=
| NoLane        (* an update kept behind a skipped one: never skipped *)
| SyncLane      (* an update made in a touch or press handler *)
| DefaultLane.  (* an update made in a timer callback *)

Global Instance Lane_eq_dec : EqDecision Lane.
Proof. solve_decision. Defined.

Record Update : Type := { lane : Lane; action : Updater }.

(** The queue of the [bubbles] cell between renders. *)
Record Hook : Type := {
  memoizedState : list Bubble.t;  (* what the last render shows *)
  baseState : list Bubble.t;      (* the state before the first skipped update *)
  baseQueue : list Update         (* the updates from the first skipped one on *)
}.

Definition isSubsetOfLanes (renderLanes : list Lane) (l : Lane) : bool :=
  match l with
  | NoLane => true
  | _ => bool_decide (l ∈ renderLanes)
  end.

(** The loop of React's [updateReducer] over the queue.  [newBaseState] is
    [None] until an update is skipped; from then on every update the loop
    takes is also kept, with [NoLane], in the new base queue. *)
Fixpoint processUpdates (renderLanes : list Lane) (queue : list Update)
    (newState : list Bubble.t) (newBaseState : option (list Bubble.t))
    (newBaseQueue : list Update) (setScoreCalls : list Z)
  : Hook * list Z :=
  match queue with
  | [] =>
      ({| memoizedState := newState;
          baseState := default newState newBaseState;
          baseQueue := newBaseQueue |}, setScoreCalls)
  | update :: queue =>
      if isSubsetOfLanes renderLanes (lane update) then
        let newBaseQueue :=
          match newBaseState with
          | Some _ =>
              newBaseQueue ++ [{| lane := NoLane; action := action update |}]
          | None => newBaseQueue
          end in
        let '(newState, made) := action update newState in
        processUpdates renderLanes queue newState newBaseState newBaseQueue
          (setScoreCalls ++ made)
      else
        processUpdates renderLanes queue newState
          (Some (default newState newBaseState)) (newBaseQueue ++ [update])
          setScoreCalls
  end.

(** One render of the cell: the base queue, then the updates that came in
    since, starting from the base state. *)
Definition updateReducer (renderLanes : list Lane) (hook : Hook)
    (pending : list Update) : Hook * list Z :=
  processUpdates renderLanes (baseQueue hook ++ pending) (baseState hook)
    None [] [].

(** One render of the [bubbles] and [score] cells: the calls of [setScore]
    made by the updater functions are applied to the score. *)
Definition renderCells (renderLanes : list Lane) (hook : Hook)
    (pending : list Update) (score : Z) : Hook * Z :=
  let '(hook, setScoreCalls) := updateReducer renderLanes hook pending in
  (hook, foldl (λ prevScore hitCount, (prevScore + hitCount)%Z) score
           setScoreCalls).

(** The cell when every update made so far has been rendered. *)
Definition settled (bs : list Bubble.t) : Hook :=
  {| memoizedState := bs; baseState := bs; baseQueue := [] |}.

(** A shot while a motion tick waits to be rendered.  The motion callback
    has run and has called [setBubbles] (in a timer: [DefaultLane]);
    before React renders that update the finger is lifted and [fireLaser]
    runs (in a touch handler: [SyncLane]).  React renders the shot at
    once, skipping the tick, and then renders the tick.  The laser flag,
    the hide timeout and the refs are set as in [fireLaser]; the bubbles
    and the score are what the two renders make of the queue. *)
Definition fireLaserOverTick (render s : State) : State :=
  let tick := {| lane := DefaultLane; action := moveUpdater |} in
  let shot := {| lane := SyncLane;
                 action := hitsUpdater (gunCenterX render) |} in
  let '(hook, score1) :=
    renderCells [SyncLane] (settled (bubbles s)) [tick; shot] (score s) in
  let '(hook, score2) := renderCells [DefaultLane] hook [] score1 in
  setScore score2 (setBubbles (memoizedState hook) (fireLaser render s)).

(** The number of bubbles the laser hits in a list. *)
Definition hitsIn (laserX : Q) (bs : list Bubble.t) : Z :=
  Z.of_nat (length (filter (λ b, isHit laserX b) bs)).
Section Proofs.
Context `{Dimensions}.

Lemma Qltb_lt (a b : Q) : Qltb a b = true ↔ a < b.
Proof.
  unfold Qltb. rewrite negb_true_iff. split.
  - intros E. apply Qnot_le_lt. intros L.
    apply Qle_bool_iff in L. congruence.
  - intros L. destruct (Qle_bool b a) eqn:E; [|done].
    apply Qle_bool_iff in E. lra.
Qed.

Lemma Qltb_ge (a b : Q) : Qltb a b = false ↔ b <= a.
Proof.
  unfold Qltb. rewrite negb_false_iff. apply Qle_bool_iff.
Qed.

Lemma isHit_abs (laserX : Q) (b : Bubble.t) :
  isHit laserX b = true
  ↔ Qabs (Bubble.x b + Bubble.radius b - laserX) <= Bubble.radius b.
Proof. unfold isHit. apply Qle_bool_iff. Qed.

Lemma scanHits_from (laserX : Q) (bs : list Bubble.t) (ids : list Z) (n : Z) :
  foldl (λ '(hitBubbleIds, hitCount) bubble,
           if isHit laserX bubble
           then (hitBubbleIds ++ [Bubble.id bubble], (hitCount + 1)%Z)
           else (hitBubbleIds, hitCount))
        (ids, n) bs
  = (ids ++ (Bubble.id <$> filter (λ b, isHit laserX b) bs),
     (n + Z.of_nat (length (filter (λ b, isHit laserX b) bs)))%Z).
Proof.
  revert ids n. induction bs as [|b bs IH]; intros ids n; simpl.
  - rewrite app_nil_r. f_equal. lia.
  - rewrite filter_cons. destruct (isHit laserX b) eqn:E; simpl.
    + rewrite IH, <- app_assoc. simpl. f_equal. lia.
    + apply IH.
Qed.

Lemma scanHits_spec (laserX : Q) (bs : list Bubble.t) :
  scanHits laserX bs
  = (Bubble.id <$> filter (λ b, isHit laserX b) bs,
     Z.of_nat (length (filter (λ b, isHit laserX b) bs))).
Proof. unfold scanHits. rewrite scanHits_from. reflexivity. Qed.


(** ** Hit detection *)

Lemma same_id_same_bubble (bs : list Bubble.t) (a b : Bubble.t) :
  NoDup (Bubble.id <$> bs) → a ∈ bs → b ∈ bs →
  Bubble.id a = Bubble.id b → a = b.
Proof.
  induction bs as [|c bs IH]; intros ND Ha Hb E.
  - by apply elem_of_nil in Ha.
  - rewrite fmap_cons in ND. apply NoDup_cons in ND as [Hc ND].
    apply elem_of_cons in Ha as [->|Ha], Hb as [->|Hb]; auto.
    + exfalso. apply Hc. rewrite E. by apply list_elem_of_fmap_2.
    + exfalso. apply Hc. rewrite <- E. by apply list_elem_of_fmap_2.
Qed.

Lemma filter_agree {A} (P P' : A → Prop)
    `{∀ a, Decision (P a)} `{∀ a, Decision (P' a)} (l : list A) :
  (∀ a, a ∈ l → P a ↔ P' a) → filter P l = filter P' l.
Proof.
  induction l as [|a l IH]; intros E; [done|].
  rewrite !filter_cons.
  assert (P a ↔ P' a) as Ea by (apply E; left).
  rewrite IH by (intros; apply E; by right).
  destruct (decide (P a)), (decide (P' a)); tauto.
Qed.



(** Removing by id is removing the hit bubbles, as long as no two live
    bubbles share an id. *)
Lemma remove_by_id (laserX : Q) (bs : list Bubble.t) :
  NoDup (Bubble.id <$> bs) →
  filter (λ b, Bubble.id b ∉ Bubble.id <$> filter (λ b, isHit laserX b) bs) bs
  = filter (λ b, ¬ isHit laserX b) bs.
Proof.
  intros ND. apply filter_agree. intros b Hb. split.
  - intros Hout Hhit. apply Hout.
    apply list_elem_of_fmap_2. by apply list_elem_of_filter.
  - intros Hmiss Hin. apply list_elem_of_fmap in Hin as (c & E & Hc).
    apply list_elem_of_filter in Hc as [Hhit Hc].
    by rewrite (same_id_same_bubble bs b c ND Hb Hc E) in Hmiss.
Qed.

Lemma checkHits_bubbles (laserX : Q) (s : State) :
  bubbles (checkHits laserX s)
  = filter (λ b, Bubble.id b ∉ Bubble.id <$> filter (λ b, isHit laserX b)
                                               (bubbles s)) (bubbles s).
Proof.
  unfold checkHits. rewrite scanHits_spec.
  by destruct (0 <? _)%Z.
Qed.

Lemma checkHits_score (laserX : Q) (s : State) :
  score (checkHits laserX s)
  = (score s
     + Z.of_nat (length (filter (λ b, isHit laserX b) (bubbles s))))%Z.
Proof.
  unfold checkHits. rewrite scanHits_spec.
  destruct (0 <? _)%Z eqn:E; simpl; [done|].
  apply Z.ltb_ge in E. lia.
Qed.

(** [checkHits] touches the bubbles and the score only. *)
Lemma checkHits_frame (laserX : Q) (s : State) :
  let s' := checkHits laserX s in
  gameStarted s' = gameStarted s ∧ gameOver s' = gameOver s
  ∧ timeLeft s' = timeLeft s ∧ laserVisible s' = laserVisible s
  ∧ gunPosition s' = gunPosition s ∧ tapStartTime s' = tapStartTime s
  ∧ tapStartX s' = tapStartX s ∧ bubbleIdRef s' = bubbleIdRef s
  ∧ timerRef s' = timerRef s ∧ bubbleTimerRef s' = bubbleTimerRef s
  ∧ laserTimeoutRef s' = laserTimeoutRef s
  ∧ moveInterval s' = moveInterval s ∧ timers s' = timers s
  ∧ nextTimerId s' = nextTimerId s.
Proof.
  unfold checkHits. destruct (scanHits laserX (bubbles s)) as [ids n].
  by destruct (0 <? n)%Z.
Qed.

Lemma not_hit_false (laserX : Q) (b : Bubble.t) :
  ¬ isHit laserX b ↔ isHit laserX b = false.
Proof. destruct (isHit laserX b); simpl; intuition congruence. Qed.

(** A fire event is [checkHits] at the gun's centre, as far as the bubbles
    and the score go. *)
Lemma fireLaser_checkHits (render s : State) :
  bubbles (fireLaser render s) = bubbles (checkHits (gunCenterX render) s)
  ∧ score (fireLaser render s) = score (checkHits (gunCenterX render) s).
Proof.
  unfold fireLaser. cbn.
  rewrite !checkHits_bubbles, !checkHits_score.
  by destruct (laserTimeoutRef s).
Qed.

(** ** The laser *)

Lemma clearInterval_frame (h : option positive) (s : State) :
  let s' := clearInterval h s in
  gameStarted s' = gameStarted s ∧ gameOver s' = gameOver s
  ∧ score s' = score s ∧ timeLeft s' = timeLeft s
  ∧ bubbles s' = bubbles s ∧ laserVisible s' = laserVisible s
  ∧ gunPosition s' = gunPosition s ∧ tapStartTime s' = tapStartTime s
  ∧ tapStartX s' = tapStartX s ∧ bubbleIdRef s' = bubbleIdRef s
  ∧ timerRef s' = timerRef s ∧ bubbleTimerRef s' = bubbleTimerRef s
  ∧ laserTimeoutRef s' = laserTimeoutRef s
  ∧ moveInterval s' = moveInterval s ∧ nextTimerId s' = nextTimerId s.
Proof. by destruct h. Qed.

(** What a fire event leaves alone. *)
Lemma fireLaser_untouched (render s : State) :
  let s' := fireLaser render s in
  gunPosition s' = gunPosition s ∧ timeLeft s' = timeLeft s
  ∧ gameStarted s' = gameStarted s ∧ gameOver s' = gameOver s
  ∧ tapStartTime s' = tapStartTime s ∧ tapStartX s' = tapStartX s
  ∧ bubbleIdRef s' = bubbleIdRef s ∧ timerRef s' = timerRef s
  ∧ bubbleTimerRef s' = bubbleTimerRef s
  ∧ moveInterval s' = moveInterval s.
Proof.
  unfold fireLaser. cbn.
  match goal with
  | |- context [checkHits ?lx ?st] =>
      pose proof (checkHits_frame lx st) as F; cbn in F
  end.
  destruct F as (F1 & F2 & F3 & F4 & F5 & F6 & F7 & F8 & F9 & F10
                 & F11 & F12 & F13 & F14).
  rewrite F5, F3, F1, F2, F6, F7, F8, F9, F10, F12.
  by destruct (laserTimeoutRef s).
Qed.

(** C10. A fire event ([fireLaser]) on live bubbles keeps every bubble that
    is not hit, as the same record (id, x, y and radius unchanged), and the
    survivors stay in their relative order; besides the bubbles, the score
    and the laser flag (with its hide timeout), nothing changes: the gun
    position, the time left, the round flags and the other refs are the
    ones from before. *)
Theorem fireLaser_frame (render s : State) :
  NoDup (Bubble.id <$> bubbles s) →
  let s' := fireLaser render s in
  let laserX := gunCenterX render in
  bubbles s' = filter (λ b, ¬ isHit laserX b) (bubbles s)
  ∧ (∀ b, b ∈ bubbles s → isHit laserX b = false → b ∈ bubbles s')
  ∧ bubbles s' `sublist_of` bubbles s
  ∧ gunPosition s' = gunPosition s ∧ timeLeft s' = timeLeft s
  ∧ gameStarted s' = gameStarted s ∧ gameOver s' = gameOver s
  ∧ tapStartTime s' = tapStartTime s ∧ tapStartX s' = tapStartX s
  ∧ bubbleIdRef s' = bubbleIdRef s ∧ timerRef s' = timerRef s
  ∧ bubbleTimerRef s' = bubbleTimerRef s
  ∧ moveInterval s' = moveInterval s.
Proof.
  intros ND s' laserX.
  assert (bubbles s' = filter (λ b, ¬ isHit laserX b) (bubbles s)) as Eb.
  { unfold s'. destruct (fireLaser_checkHits render s) as [-> _].
    rewrite checkHits_bubbles. by apply remove_by_id. }
  split; [exact Eb|]. split; [|split].
  - intros b Hb Hmiss. rewrite Eb, list_elem_of_filter, not_hit_false. tauto.
  - rewrite Eb. apply sublist_filter.
  - apply fireLaser_untouched.
Qed.

(** ** Motion *)

(** C3. A motion tick ([moveBubbles]): the bubbles afterwards are exactly
    the bubbles from before with [y] lowered by 2 and id, x and radius
    unchanged, except those whose new [y] is at most -60; so no bubble with
    new [y <= -60] remains and every bubble with new [y > -60] does. *)
Theorem moveBubbles_spec (s : State) :
  let s' := moveBubbles s in
  let moved (b : Bubble.t) : Bubble.t :=
    {| Bubble.id := Bubble.id b; Bubble.x := Bubble.x b;
       Bubble.y := Bubble.y b - 2; Bubble.radius := Bubble.radius b |} in
  (∀ b', b' ∈ bubbles s'
         ↔ ∃ b, b ∈ bubbles s ∧ b' = moved b ∧ -60 < Bubble.y b - 2)
  ∧ (∀ b, b ∈ bubbles s → Bubble.y b - 2 <= -60 → moved b ∉ bubbles s')
  ∧ (∀ b, b ∈ bubbles s → -60 < Bubble.y b - 2 → moved b ∈ bubbles s')
  ∧ (∀ b', b' ∈ bubbles s' → ¬ Bubble.y b' <= -60)
  ∧ bubbles s' `sublist_of` (moved <$> bubbles s)
  ∧ (length (bubbles s') ≤ length (bubbles s))%nat.
Proof.
  intros s' moved.
  assert (∀ b', b' ∈ bubbles s'
                ↔ ∃ b, b ∈ bubbles s ∧ b' = moved b ∧ -60 < Bubble.y b - 2)
    as M.
  { intros b'. unfold s', moveBubbles. cbn.
    rewrite list_elem_of_filter, list_elem_of_fmap. split.
    - intros [L (b & -> & Hb)]. apply Is_true_true, Qltb_lt in L.
      exists b. by repeat split.
    - intros (b & Hb & -> & L). split; [|by exists b].
      apply Is_true_true, Qltb_lt. exact L. }
  split; [exact M|]. split; [|split; [|split; [|split]]].
  - intros b Hb Hout Hin. apply M in Hin as (c & _ & E & L).
    assert (Bubble.y (moved b) = Bubble.y (moved c)) as Ey by (by rewrite E).
    cbn in Ey. rewrite Ey in Hout. lra.
  - intros b Hb L. apply M. by exists b.
  - intros b' Hin Hout. apply M in Hin as (c & _ & -> & L).
    cbn in Hout. lra.
  - apply sublist_filter.
  - unfold s', moveBubbles. cbn.
    etrans; [apply length_filter|]. by rewrite length_fmap.
Qed.

(** ** Spawner *)

(** C4. [spawnBubble] with any value [rnd] of [Math.random()] (a number in
    [0, 1)) on a window at least as wide as a bubble: one bubble is
    appended; its [x] lies in [0, screenWidth - 2 * radius], its [y] is
    [screenHeight - 100], its radius is 30 and its id is the current value
    of the id counter, which then grows by one; the counter is 1 in the
    first render and [startGame] sets it back to 1. *)
Theorem spawnBubble_spec (rnd : Q) (s : State) :
  60 <= screenWidth → 0 <= rnd → rnd < 1 →
  let s' := spawnBubble rnd s in
  ∃ b, bubbles s' = bubbles s ++ [b]
       ∧ 0 <= Bubble.x b
       ∧ Bubble.x b <= screenWidth - 2 * Bubble.radius b
       ∧ Bubble.y b = screenHeight - 100
       ∧ Bubble.radius b = 30
       ∧ Bubble.id b = bubbleIdRef s
       ∧ bubbleIdRef s' = (bubbleIdRef s + 1)%Z
       ∧ bubbleIdRef initial = 1%Z
       ∧ bubbleIdRef (startGame s) = 1%Z.
Proof.
  intros W R0 R1 s'. eexists. split; [reflexivity|]. cbn.
  repeat split; nra.
Qed.

(** ** Reset *)

Lemma commit_frame (prev s : State) :
  let s' := commit prev s in
  gameStarted s' = gameStarted s ∧ gameOver s' = gameOver s
  ∧ score s' = score s ∧ timeLeft s' = timeLeft s
  ∧ bubbles s' = bubbles s ∧ laserVisible s' = laserVisible s
  ∧ gunPosition s' = gunPosition s ∧ tapStartTime s' = tapStartTime s
  ∧ tapStartX s' = tapStartX s ∧ bubbleIdRef s' = bubbleIdRef s
  ∧ timerRef s' = timerRef s ∧ bubbleTimerRef s' = bubbleTimerRef s
  ∧ laserTimeoutRef s' = laserTimeoutRef s.
Proof.
  unfold commit, motionEffect, motionCleanup.
  case_bool_decide; [done|].
  destruct (moveInterval s); cbn;
    destruct (negb (gameStarted s) || gameOver s); cbn.
  all: split_and!; reflexivity.
Qed.

(** C7. [resetGame] from any state, followed by the re-render: no bubbles,
    score 0, 120 seconds left, laser hidden, neither started nor over, and
    the gun where it was before the reset. *)
Theorem resetGame_spec (s : State) :
  let s' := commit s (resetGame s) in
  bubbles s' = [] ∧ score s' = 0%Z ∧ timeLeft s' = 120%Z
  ∧ laserVisible s' = false
  ∧ gameStarted s' = false ∧ gameOver s' = false
  ∧ gunPosition s' = gunPosition s.
Proof.
  intros s'.
  pose proof (commit_frame s (resetGame s)) as F. cbn zeta in F.
  fold s' in F.
  destruct F as (F1 & F2 & F3 & F4 & F5 & F6 & F7 & _).
  rewrite F1, F2, F3, F4, F5, F6, F7. unfold resetGame. cbn.
  destruct (timerRef s); cbn; destruct (bubbleTimerRef s); cbn.
  all: done.
Qed.

(** ** The gun *)

Lemma clamp_range (newX : Q) :
  60 <= screenWidth →
  0 <= Qmax 0 (Qmin newX (screenWidth - gunWidth))
  ∧ Qmax 0 (Qmin newX (screenWidth - gunWidth)) <= screenWidth - gunWidth.
Proof.
  intros W. unfold gunWidth. split; [apply Q.le_max_l|].
  apply Q.max_lub; [lra|apply Q.le_min_r].
Qed.

Lemma drag_clamp_range (gunInitialX : Q) (g : GestureState) :
  60 <= screenWidth →
  0 <= DragScreen.onPanResponderMove gunInitialX g
  ∧ DragScreen.onPanResponderMove gunInitialX g <= screenWidth - gunWidth.
Proof.
  intros W. unfold DragScreen.onPanResponderMove, gunWidth.
  destruct (Qltb (gunInitialX + dx g) 0) eqn:E1.
  - destruct (Qltb (screenWidth - 60) 0) eqn:E2.
    + apply Qltb_lt in E2. lra.
    + lra.
  - apply Qltb_ge in E1.
    destruct (Qltb (screenWidth - 60) (gunInitialX + dx g)) eqn:E2.
    + lra.
    + apply Qltb_ge in E2. lra.
Qed.

(** ** The invariant *)

Lemma DataInv_ext (s s' : State) :
  gameStarted s' = gameStarted s → gameOver s' = gameOver s →
  score s' = score s → timeLeft s' = timeLeft s →
  bubbles s' = bubbles s → bubbleIdRef s' = bubbleIdRef s →
  DataInv s → DataInv s'.
Proof.
  intros E1 E2 E3 E4 E5 E6 [].
  constructor; unfold running in *; rewrite ?E1, ?E2, ?E3, ?E4, ?E5, ?E6;
    assumption.
Qed.

Lemma TimerInv_ext (s s' : State) :
  gameStarted s' = gameStarted s → gameOver s' = gameOver s →
  timerRef s' = timerRef s → bubbleTimerRef s' = bubbleTimerRef s →
  laserTimeoutRef s' = laserTimeoutRef s →
  moveInterval s' = moveInterval s →
  timers s' = timers s → nextTimerId s' = nextTimerId s →
  TimerInv s → TimerInv s'.
Proof.
  intros E1 E2 E3 E4 E5 E6 E7 E8 [].
  constructor; unfold running in *;
    rewrite ?E1, ?E2, ?E3, ?E4, ?E5, ?E6, ?E7, ?E8; assumption.
Qed.

Lemma Inv_initial : Inv initial.
Proof.
  split; constructor; cbn; try done; try lia.
  - constructor.
  - intros b Hb. by apply elem_of_nil in Hb.
Qed.

(** *** Data *)

Lemma NoDup_ids_filter (P : Bubble.t → Prop) `{∀ b, Decision (P b)}
    (bs : list Bubble.t) :
  NoDup (Bubble.id <$> bs) → NoDup (Bubble.id <$> filter P bs).
Proof.
  intros ND.
  eapply sublist_NoDup; [exact ND | apply fmap_sublist, sublist_filter].
Qed.

Lemma DataInv_checkHits (laserX : Q) (s : State) :
  DataInv s → DataInv (checkHits laserX s).
Proof.
  intros [].
  destruct (checkHits_frame laserX s)
    as (F1 & F2 & F3 & F4 & F5 & F6 & F7 & F8 & _).
  constructor; unfold running; rewrite ?F1, ?F2, ?F3, ?F8; try assumption.
  - rewrite checkHits_bubbles. by apply NoDup_ids_filter.
  - intros b. rewrite checkHits_bubbles, list_elem_of_filter.
    intros [_ Hb]. by apply inv_ids_bound0.
  - rewrite checkHits_score. lia.
Qed.

Lemma DataInv_fireLaser (render s : State) :
  DataInv s → DataInv (fireLaser render s).
Proof.
  intros D. unfold fireLaser.
  match goal with
  | |- context [checkHits ?lx ?st] =>
      assert (DataInv (checkHits lx st)) as D'
  end.
  { apply DataInv_checkHits.
    eapply DataInv_ext; [..|exact D]; by destruct (laserTimeoutRef s). }
  eapply DataInv_ext; [..|exact D']; reflexivity.
Qed.

Lemma DataInv_spawnBubble (rnd : Q) (s : State) :
  DataInv s → DataInv (spawnBubble rnd s).
Proof.
  intros [].
  constructor; unfold running; cbn; try assumption; try lia.
  - rewrite fmap_app. apply NoDup_app. split; [assumption|]. split.
    + intros i Hi Hnew. cbn in Hnew. apply list_elem_of_singleton in Hnew.
      apply list_elem_of_fmap in Hi as (b & -> & Hb).
      apply inv_ids_bound0 in Hb. lia.
    + cbn. apply NoDup_singleton.
  - intros b Hb. apply elem_of_app in Hb as [Hb|Hb].
    + apply inv_ids_bound0 in Hb. lia.
    + apply list_elem_of_singleton in Hb as ->. cbn. lia.
Qed.

Lemma DataInv_moveBubbles (s : State) : DataInv s → DataInv (moveBubbles s).
Proof.
  intros [].
  constructor; unfold running; cbn; try assumption.
  - apply NoDup_ids_filter. by rewrite <- list_fmap_compose.
  - intros b. rewrite list_elem_of_filter, list_elem_of_fmap.
    intros [_ (c & -> & Hc)]. cbn. by apply inv_ids_bound0.
Qed.

Lemma DataInv_countdown (s : State) :
  running s = true → DataInv s → DataInv (countdown s).
Proof.
  intros R []. unfold countdown.
  apply andb_true_iff in R as [R1 R2]. apply negb_true_iff in R2.
  destruct (timeLeft s <=? 1)%Z eqn:E.
  - destruct (timerRef s); cbn; destruct (bubbleTimerRef s); cbn;
      (constructor; unfold running; cbn; try assumption; try done; lia).
  - apply Z.leb_gt in E.
    constructor; unfold running; cbn; try assumption; try lia.
    rewrite R2. done.
Qed.

Lemma DataInv_startGame (s : State) : DataInv (startGame s).
Proof.
  constructor; unfold running; cbn; try done; try lia.
  - constructor.
  - intros b Hb. by apply elem_of_nil in Hb.
Qed.

Lemma DataInv_resetGame (s : State) : DataInv (resetGame s).
Proof.
  unfold resetGame. cbn.
  destruct (timerRef s); cbn; destruct (bubbleTimerRef s); cbn;
    (constructor; unfold running; cbn; try done; try lia;
     [constructor | intros b Hb; by apply elem_of_nil in Hb]).
Qed.

Lemma DataInv_commit (prev s : State) : DataInv s → DataInv (commit prev s).
Proof.
  intros D.
  destruct (commit_frame prev s)
    as (F1 & F2 & F3 & F4 & F5 & F6 & F7 & F8 & F9 & F10 & _).
  eapply DataInv_ext; [..|exact D]; assumption.
Qed.

(** *** Timers *)

Lemma running_ext (s s' : State) :
  gameStarted s' = gameStarted s → gameOver s' = gameOver s →
  running s' = running s.
Proof. unfold running. by intros -> ->. Qed.

(** Cancelling a handle that is not a periodic timer keeps the invariant:
    a spent or pending laser timeout, or a handle that is not active. *)
Lemma TimerInv_cancel (h : positive) (s : State) :
  (∀ t, timers s !! h = Some t → callback t = HideLaserCb) →
  TimerInv s → TimerInv (clearInterval (Some h) s).
Proof.
  intros Hh [F LR L St Ru].
  constructor; unfold running in *; cbn.
  - intros h' t [_ E]%lookup_delete_Some. eauto.
  - intros h' E. destruct (LR h' E) as [? Ht]. split; [done|].
    intros t [_ E']%lookup_delete_Some. eauto.
  - intros h' t [_ E]%lookup_delete_Some. eauto.
  - intros R. destruct (St R) as [? Ht]. split; [done|].
    intros h' t [_ E]%lookup_delete_Some. eauto.
  - intros R. destruct (Ru R) as (hs & hc & hm & ? & ? & ? & Es & Ec & Em & A).
    exists hs, hc, hm. split_and!; try done.
    + rewrite lookup_delete_ne; [done|]. intros ->.
      by specialize (Hh _ Es).
    + rewrite lookup_delete_ne; [done|]. intros ->.
      by specialize (Hh _ Ec).
    + rewrite lookup_delete_ne; [done|]. intros ->.
      by specialize (Hh _ Em).
    + intros h' t [_ E]%lookup_delete_Some. eauto.
Qed.

Lemma NoLaser_cancel (s : State) :
  TimerInv s →
  NoLaser (match laserTimeoutRef s with
           | Some _ => clearTimeout (laserTimeoutRef s) s
           | None => s
           end).
Proof.
  intros [F LR L St Ru] h t E C.
  destruct (laserTimeoutRef s) as [hl|] eqn:Ehl.
  - cbn in E. apply lookup_delete_Some in E as [N E].
    specialize (L _ _ E C). congruence.
  - specialize (L _ _ E C). congruence.
Qed.

(** Scheduling the laser timeout under a fresh handle and storing the
    handle in [laserTimeoutRef]. *)
Lemma TimerInv_schedule_laser (s s' : State) :
  gameStarted s' = gameStarted s → gameOver s' = gameOver s →
  timerRef s' = timerRef s → bubbleTimerRef s' = bubbleTimerRef s →
  moveInterval s' = moveInterval s →
  timers s' = <[nextTimerId s := hideLaserTimer]> (timers s) →
  nextTimerId s' = Pos.succ (nextTimerId s) →
  laserTimeoutRef s' = Some (nextTimerId s) →
  TimerInv s → NoLaser s → TimerInv s'.
Proof.
  intros E1 E2 E3 E4 E5 E6 E7 E8 [F LR L St Ru] NL.
  constructor; rewrite ?(running_ext s s' E1 E2), ?E3, ?E4, ?E5, ?E6, ?E7, ?E8.
  - intros h t [[<- _]|[_ E]]%lookup_insert_Some; [lia|].
    specialize (F _ _ E). lia.
  - intros h [= <-]. split; [lia|].
    intros t. rewrite lookup_insert_eq. congruence.
  - intros h t [[<- _]|[_ E]]%lookup_insert_Some C; [done|].
    by destruct (NL _ _ E).
  - intros R. destruct (St R) as [? Ht]. split; [done|].
    intros h t [[_ <-]|[_ E]]%lookup_insert_Some; [done|eauto].
  - intros R. destruct (Ru R) as (hs & hc & hm & ? & ? & ? & Es & Ec & Em & A).
    exists hs, hc, hm. split_and!; try done.
    + rewrite lookup_insert_ne; [done|]. specialize (F _ _ Es). lia.
    + rewrite lookup_insert_ne; [done|]. specialize (F _ _ Ec). lia.
    + rewrite lookup_insert_ne; [done|]. specialize (F _ _ Em). lia.
    + intros h t [[_ <-]|[_ E]]%lookup_insert_Some C; [done|eauto].
Qed.

Lemma TimerInv_fireLaser (render s : State) :
  TimerInv s → TimerInv (fireLaser render s).
Proof.
  intros T. unfold fireLaser.
  set (s1 := match laserTimeoutRef s with
             | Some _ => clearTimeout (laserTimeoutRef s) s
             | None => s
             end).
  assert (TimerInv s1) as T1.
  { unfold s1. destruct (laserTimeoutRef s) as [hl|] eqn:E; [|done].
    apply TimerInv_cancel; [|done].
    intros t Et. destruct T as [_ LR _ _ _].
    destruct (LR _ E) as [_ Ht]. by rewrite (Ht _ Et). }
  assert (NoLaser s1) as N1 by (by apply NoLaser_cancel).
  destruct (checkHits_frame (gunCenterX render) (setLaserVisible true s1))
    as (F1 & F2 & F3 & F4 & F5 & F6 & F7 & F8 & F9 & F10 & F11 & F12
        & F13 & F14).
  cbn in *.
  eapply (TimerInv_schedule_laser s1); cbn; try done.
  - by rewrite F13, F14.
  - by rewrite F14.
  - by rewrite F14.
Qed.

(** Whatever remains once the periodic timers are gone. *)
Lemma TimerInv_stopped (s s' : State) :
  running s' = false → moveInterval s' = None →
  laserTimeoutRef s' = laserTimeoutRef s →
  nextTimerId s' = nextTimerId s →
  (∀ h t, timers s' !! h = Some t →
          timers s !! h = Some t ∧ callback t = HideLaserCb) →
  TimerInv s → TimerInv s'.
Proof.
  intros R M E1 E2 Sub [F LR L St Ru].
  constructor; rewrite ?R, ?M, ?E1, ?E2; try done.
  - intros h t [E _]%Sub. eauto.
  - intros h E. destruct (LR h E) as [? Ht]. split; [done|].
    intros t [E' _]%Sub. eauto.
  - intros h t [E C]%Sub _. eauto.
  - intros _. split; [done|]. intros h t [_ C]%Sub. done.
Qed.

Lemma commit_same (prev s : State) :
  gameStarted prev = gameStarted s → gameOver prev = gameOver s →
  commit prev s = s.
Proof. intros E1 E2. unfold commit. by rewrite bool_decide_eq_true_2. Qed.

(** The last countdown tick and the re-render after it. *)
Lemma TimerInv_game_over (s : State) :
  running s = true → (timeLeft s <= 1)%Z →
  TimerInv s → TimerInv (commit s (countdown s)).
Proof.
  intros R E T.
  destruct (T.(inv_running s) R)
    as (hs & hc & hm & Rs & Rc & Rm & Es & Ec & Em & A).
  apply andb_true_iff in R as [R1 R2]. apply negb_true_iff in R2.
  unfold countdown. apply Z.leb_le in E. rewrite E, Rc. cbn. rewrite Rs.
  unfold commit. cbn. rewrite R2. rewrite bool_decide_eq_false_2 by (intros [? ?]; congruence).
  unfold motionCleanup, motionEffect. cbn. rewrite Rm. cbn.
  rewrite orb_true_r.
  eapply (TimerInv_stopped s); cbn; try done.
  - unfold running. cbn. by rewrite andb_false_r.
  - intros h t E'.
    apply lookup_delete_Some in E' as [N1 E'].
    apply lookup_delete_Some in E' as [N2 E'].
    apply lookup_delete_Some in E' as [N3 E'].
    split; [done|].
    destruct (decide (callback t = HideLaserCb)) as [|C]; [done|].
    destruct (A _ _ E' C) as [->| [->| ->]]; done.
Qed.

(** "Start Game" in the start overlay and the re-render after it. *)
Lemma TimerInv_start (s : State) :
  gameStarted s = false → gameOver s = false →
  TimerInv s → TimerInv (commit s (startGame s)).
Proof.
  intros R1 R2 [F LR L St Ru].
  assert (running s = false) as R by (unfold running; by rewrite R1).
  destruct (St R) as [M Hide].
  unfold commit. cbn. rewrite R1, bool_decide_eq_false_2 by (intros [? ?]; congruence).
  unfold motionCleanup, motionEffect. cbn. rewrite M. cbn.
  set (n := nextTimerId s).
  constructor; unfold running; cbn.
  - intros h t E.
    apply lookup_insert_Some in E as [[<- _]|[_ E]]; [lia|].
    apply lookup_insert_Some in E as [[<- _]|[_ E]]; [lia|].
    apply lookup_insert_Some in E as [[<- _]|[_ E]]; [lia|].
    specialize (F _ _ E). lia.
  - intros h E. destruct (LR h E) as [Lt Ht]. split; [lia|].
    intros t Et. fold n in Lt.
    rewrite !lookup_insert_ne in Et by lia. eauto.
  - intros h t E C.
    apply lookup_insert_Some in E as [[_ <-]|[_ E]]; [done|].
    apply lookup_insert_Some in E as [[_ <-]|[_ E]]; [done|].
    apply lookup_insert_Some in E as [[_ <-]|[_ E]]; [done|].
    eauto.
  - done.
  - intros _. exists n, (Pos.succ n), (Pos.succ (Pos.succ n)).
    split_and!; try done.
    + rewrite !lookup_insert_ne by lia. by rewrite lookup_insert_eq.
    + rewrite lookup_insert_ne by lia. by rewrite lookup_insert_eq.
    + by rewrite lookup_insert_eq.
    + intros h t E C.
      apply lookup_insert_Some in E as [[<- _]|[_ E]]; [auto|].
      apply lookup_insert_Some in E as [[<- _]|[_ E]]; [auto|].
      apply lookup_insert_Some in E as [[<- _]|[_ E]]; [auto|].
      by destruct (C (Hide _ _ E)).
Qed.

(** "Play Again" in the game-over overlay and the re-render after it. *)
Lemma TimerInv_reset (s : State) :
  gameOver s = true → TimerInv s → TimerInv (commit s (resetGame s)).
Proof.
  intros R2 T.
  assert (running s = false) as R
    by (unfold running; rewrite R2; apply andb_false_r).
  destruct (T.(inv_stopped s) R) as [M Hide].
  assert (∀ o h t, timers (clearInterval o s) !! h = Some t →
                   timers s !! h = Some t) as Sub.
  { intros [i|] h t; cbn; [|done]. by intros [_ E]%lookup_delete_Some. }
  unfold commit. rewrite bool_decide_eq_false_2.
  2: { unfold resetGame. cbn.
       destruct (timerRef s); cbn; destruct (bubbleTimerRef s); cbn;
         rewrite R2; intros [? ?]; congruence. }
  unfold motionCleanup, motionEffect, resetGame. cbn.
  destruct (timerRef s) as [hc|]; cbn; destruct (bubbleTimerRef s) as [hs|];
    cbn; rewrite M; cbn;
    (eapply (TimerInv_stopped s); cbn; [done..| |done]);
    intros h t E; repeat (apply lookup_delete_Some in E as [_ E]); eauto.
Qed.

(** *** Props of the game area *)

Lemma props_grant (s : State) :
  gameAreaProps s !! "onResponderGrant"
  = if running s then Some PanGrant else None.
Proof. unfold gameAreaProps. by destruct (running s). Qed.

Lemma props_move (s : State) :
  gameAreaProps s !! "onResponderMove"
  = if running s then Some PanMove else None.
Proof. unfold gameAreaProps. by destruct (running s). Qed.

(** The release handler of the game area is [handleTap] of the current
    render: the second spread replaces the responder's own release
    handler. *)
Lemma props_release (s : State) :
  gameAreaProps s !! "onResponderRelease"
  = if running s then Some (HandleTap s) else None.
Proof. unfold gameAreaProps. by destruct (running s). Qed.

Lemma handleTap_running (s : State) :
  running s = true → handleTap s s = fireLaser s s.
Proof.
  unfold running, handleTap. intros [-> ->%negb_true_iff]%andb_true_iff.
  done.
Qed.

(** The responder's own release handler calls the [handleTap] of the first
    render, in which the game has not started: it never fires. *)
Lemma onPanResponderRelease_idle (g : GestureState) (now : Z) (s : State) :
  onPanResponderRelease initial g now s = s.
Proof.
  unfold onPanResponderRelease.
  by destruct ((_ <? _)%Z && _).
Qed.

(** *** One step *)

Lemma Inv_gesture_fields (s s' : State) :
  gameStarted s' = gameStarted s → gameOver s' = gameOver s →
  score s' = score s → timeLeft s' = timeLeft s →
  bubbles s' = bubbles s → bubbleIdRef s' = bubbleIdRef s →
  timerRef s' = timerRef s → bubbleTimerRef s' = bubbleTimerRef s →
  laserTimeoutRef s' = laserTimeoutRef s →
  moveInterval s' = moveInterval s →
  timers s' = timers s → nextTimerId s' = nextTimerId s →
  Inv s → Inv s'.
Proof.
  intros ? ? ? ? ? ? ? ? ? ? ? ? [D T]. split.
  - by eapply DataInv_ext.
  - by eapply TimerInv_ext.
Qed.

Lemma Inv_fireLaser (render s : State) : Inv s → Inv (fireLaser render s).
Proof.
  intros [D T]. split; [by apply DataInv_fireLaser|by apply TimerInv_fireLaser].
Qed.

Lemma fireLaser_flags (render s : State) :
  gameStarted (fireLaser render s) = gameStarted s
  ∧ gameOver (fireLaser render s) = gameOver s.
Proof.
  unfold fireLaser. cbn.
  match goal with
  | |- context [checkHits ?lx ?st] =>
      destruct (checkHits_frame lx st) as (F1 & F2 & _)
  end.
  rewrite F1, F2. by destruct (laserTimeoutRef s).
Qed.

Lemma Inv_deliver (prop : string) (g : GestureState) (now : Z) (s : State) :
  Inv s →
  Inv (deliver prop g now s)
  ∧ gameStarted (deliver prop g now s) = gameStarted s
  ∧ gameOver (deliver prop g now s) = gameOver s.
Proof.
  intros I. unfold deliver, gameAreaProps, spread.
  destruct (running s) eqn:R;
    [|by rewrite lookup_union_None_2 by apply lookup_empty].
  destruct (_ !! prop) as [h|] eqn:E; [|done].
  apply lookup_union_Some_raw in E as [E|[_ E]].
  - apply lookup_insert_Some in E as [[_ <-]|[_ E]]; [done|].
    apply lookup_singleton_Some in E as [_ <-]. cbn.
    rewrite handleTap_running by done.
    split; [by apply Inv_fireLaser|apply fireLaser_flags].
  - unfold panHandlers in E.
    repeat (apply lookup_insert_Some in E as [[_ <-]|[_ E]];
            [cbn; split; [|done];
             first [done | by eapply (Inv_gesture_fields s)]|]).
    apply lookup_singleton_Some in E as [_ <-]. cbn.
    by rewrite onPanResponderRelease_idle.
Qed.

Lemma Inv_fireTimer (h : positive) (rnd : Q) (s : State) :
  Inv s → Inv (commit s (fireTimer h rnd s)).
Proof.
  intros [D T]. unfold fireTimer.
  destruct (timers s !! h) as [t|] eqn:E;
    [|by rewrite commit_same].
  destruct (decide (callback t = HideLaserCb)) as [C|C].
  - rewrite C. cbn.
    assert (Inv (if repeats t then s else clearTimeout (Some h) s)) as I.
    { destruct (repeats t); [done|]. split.
      - eapply DataInv_ext; [..|exact D]; done.
      - apply TimerInv_cancel; [|done]. intros t' Et'. congruence. }
    rewrite commit_same by (by destruct (repeats t)).
    eapply Inv_gesture_fields; [..|exact I]; done.
  - destruct (running s) eqn:R.
    2: { destruct (T.(inv_stopped s) R) as [_ Hide].
         by destruct (C (Hide _ _ E)). }
    destruct (T.(inv_running s) R)
      as (hs & hc & hm & Rs & Rc & Rm & Es & Ec & Em & A).
    assert (t = spawnTimer ∨ t = countdownTimer ∨ t = moveTimer) as Ht.
    { destruct (A _ _ E C) as [->| [->| ->]]; naive_solver. }
    destruct Ht as [->| [->| ->]]; cbn.
    + rewrite commit_same by done. split.
      * by apply DataInv_spawnBubble.
      * eapply TimerInv_ext; [..|exact T]; done.
    + split.
      * apply DataInv_commit. by apply DataInv_countdown.
      * destruct (Z.le_gt_cases (timeLeft s) 1) as [L|L].
        -- by apply TimerInv_game_over.
        -- unfold countdown. apply Z.leb_gt in L. rewrite L.
           rewrite commit_same by done.
           eapply TimerInv_ext; [..|exact T]; done.
    + rewrite commit_same by done. split.
      * by apply DataInv_moveBubbles.
      * eapply TimerInv_ext; [..|exact T]; done.
Qed.

Lemma Inv_step (e : Event) (s : State) : Inv s → Inv (step e s).
Proof.
  intros I. unfold step, handle. destruct e as [| |g now|g|g now|h rnd].
  - destruct (negb (gameStarted s) && negb (gameOver s)) eqn:E;
      [|by rewrite commit_same].
    apply andb_true_iff in E as [E1%negb_true_iff E2%negb_true_iff].
    destruct I as [D T]. split.
    + apply DataInv_commit, DataInv_startGame.
    + by apply TimerInv_start.
  - destruct (gameOver s) eqn:E; [|by rewrite commit_same].
    destruct I as [D T]. split.
    + apply DataInv_commit, DataInv_resetGame.
    + by apply TimerInv_reset.
  - destruct (Inv_deliver "onResponderGrant" g now s I) as (I' & E1 & E2).
    by rewrite commit_same.
  - destruct (Inv_deliver "onResponderMove" g 0%Z s I) as (I' & E1 & E2).
    by rewrite commit_same.
  - destruct (Inv_deliver "onResponderRelease" g now s I) as (I' & E1 & E2).
    by rewrite commit_same.
  - by apply Inv_fireTimer.
Qed.

Lemma Inv_run (es : list Event) (s : State) : Inv s → Inv (run es s).
Proof.
  revert s. induction es as [|e es IH]; intros s I; [done|].
  cbn. apply IH. by apply Inv_step.
Qed.

Lemma reachable_Inv (s : State) : reachable s → Inv s.
Proof.
  induction 1 as [|e s _ IH _]; [apply Inv_initial|by apply Inv_step].
Qed.

(** The bubbles of a reachable state are live bubbles: no two share an
    id. *)
Lemma reachable_live_bubbles (s : State) :
  reachable s → NoDup (Bubble.id <$> bubbles s).
Proof. intros [D _]%reachable_Inv. apply D. Qed.

(** ** The gun *)

Lemma gun_deliver (prop : string) (g : GestureState) (now : Z) (s : State) :
  60 <= screenWidth → inGunRange (gunPosition s) →
  inGunRange (gunPosition (deliver prop g now s)).
Proof.
  intros W G. unfold deliver, gameAreaProps, spread.
  destruct (running s) eqn:R;
    [|by rewrite lookup_union_None_2 by apply lookup_empty].
  destruct (_ !! prop) as [h|] eqn:E; [|done].
  apply lookup_union_Some_raw in E as [E|[_ E]].
  - apply lookup_insert_Some in E as [[_ <-]|[_ E]]; [done|].
    apply lookup_singleton_Some in E as [_ <-]. cbn.
    rewrite handleTap_running by done.
    destruct (fireLaser_untouched s s) as [-> _]. done.
  - unfold panHandlers in E.
    repeat (apply lookup_insert_Some in E as [[_ <-]|[_ E]];
            [cbn; first [done | by apply clamp_range]|]).
    apply lookup_singleton_Some in E as [_ <-]. cbn.
    by rewrite onPanResponderRelease_idle.
Qed.

Lemma gun_callback (cb : Callback) (rnd : Q) (s : State) :
  gunPosition (runCallback cb rnd s) = gunPosition s.
Proof.
  destruct cb; cbn; try done.
  unfold countdown. destruct (_ <=? _)%Z; [|done].
  destruct (timerRef s); cbn; destruct (bubbleTimerRef s); by cbn.
Qed.

Lemma gun_handle (e : Event) (s : State) :
  60 <= screenWidth → inGunRange (gunPosition s) →
  inGunRange (gunPosition (handle e s)).
Proof.
  intros W G. destruct e as [| |g now|g|g now|h rnd]; cbn.
  - by destruct (negb (gameStarted s) && negb (gameOver s)).
  - destruct (gameOver s); [|done]. unfold resetGame. cbn.
    destruct (timerRef s); cbn; destruct (bubbleTimerRef s); by cbn.
  - by apply gun_deliver.
  - by apply gun_deliver.
  - by apply gun_deliver.
  - unfold fireTimer. destruct (timers s !! h) as [t|]; [|done].
    rewrite gun_callback. by destruct (repeats t).
Qed.

Lemma gun_step (e : Event) (s : State) :
  60 <= screenWidth → inGunRange (gunPosition s) →
  inGunRange (gunPosition (step e s)).
Proof.
  intros W G. unfold step.
  destruct (commit_frame s (handle e s)) as (_ & _ & _ & _ & _ & _ & -> & _).
  by apply gun_handle.
Qed.

(** C6. On a window at least as wide as the gun: after a gesture start or
    a gesture move with any incoming coordinate the stored gun position
    lies in [0, screenWidth - gunWidth]; so does the position handed to
    [setGunPosition] by the move handler of the second screen variant; and
    the gun position of every reachable state, the first render with its
    centred gun included, lies in that interval. *)
Theorem gun_clamped :
  60 <= screenWidth →
  (∀ g now s, inGunRange (gunPosition (onPanResponderGrant g now s)))
  ∧ (∀ g s, inGunRange (gunPosition (onPanResponderMove g s)))
  ∧ (∀ g now s, inGunRange (gunPosition s) →
                inGunRange (gunPosition (step (ResponderGrant g now) s)))
  ∧ (∀ g s, inGunRange (gunPosition s) →
            inGunRange (gunPosition (step (ResponderMove g) s)))
  ∧ (∀ gunInitialX g,
       inGunRange (DragScreen.onPanResponderMove gunInitialX g))
  ∧ inGunRange (gunPosition initial)
  ∧ (∀ s, reachable s → inGunRange (gunPosition s)).
Proof.
  intros W.
  assert (inGunRange (gunPosition initial)) as G0.
  { unfold inGunRange, gunWidth. cbn. unfold gunWidth, Qdiv.
    change (/ 2) with (1 # 2). split; lra. }
  split_and!.
  - intros g now s. by apply clamp_range.
  - intros g s. by apply clamp_range.
  - intros g now s G. by apply gun_step.
  - intros g s G. by apply gun_step.
  - intros x g. by apply drag_clamp_range.
  - exact G0.
  - induction 1 as [|e s _ IH _]; [exact G0|by apply gun_step].
Qed.

(** ** The round *)

(** A gesture leaves the round's clock alone. *)
Lemma deliver_round (prop : string) (g : GestureState) (now : Z) (s : State) :
  let s' := deliver prop g now s in
  gameStarted s' = gameStarted s ∧ gameOver s' = gameOver s
  ∧ timeLeft s' = timeLeft s ∧ timerRef s' = timerRef s.
Proof.
  unfold deliver, gameAreaProps, spread.
  destruct (running s) eqn:R;
    [|by rewrite lookup_union_None_2 by apply lookup_empty].
  destruct (_ !! prop) as [h|] eqn:E; [|done].
  apply lookup_union_Some_raw in E as [E|[_ E]].
  - apply lookup_insert_Some in E as [[_ <-]|[_ E]]; [done|].
    apply lookup_singleton_Some in E as [_ <-]. cbn.
    rewrite handleTap_running by done.
    destruct (fireLaser_untouched s s)
      as (_ & -> & -> & -> & _ & _ & _ & -> & _). done.
  - unfold panHandlers in E.
    repeat (apply lookup_insert_Some in E as [[_ <-]|[_ E]]; [done|]).
    apply lookup_singleton_Some in E as [_ <-]. cbn.
    by rewrite onPanResponderRelease_idle.
Qed.

Lemma deliver_stopped (prop : string) (g : GestureState) (now : Z)
    (s : State) :
  running s = false → deliver prop g now s = s.
Proof.
  intros R. unfold deliver, gameAreaProps, spread. rewrite R.
  by rewrite lookup_union_None_2 by apply lookup_empty.
Qed.

(** The countdown timer of a running round runs [countdown]. *)
Lemma step_tick (hc : positive) (rnd : Q) (s : State) :
  Inv s → running s = true → timerRef s = Some hc →
  step (TimerFired hc rnd) s = commit s (countdown s).
Proof.
  intros [_ T] R Rc.
  destruct (T.(inv_running s) R)
    as (hs & hc' & hm & _ & Rc' & _ & _ & Ec & _).
  assert (hc' = hc) as -> by congruence.
  unfold step. cbn. unfold fireTimer. by rewrite Ec.
Qed.

Lemma countdown_continues (s : State) :
  (1 < timeLeft s)%Z →
  let s' := commit s (countdown s) in
  gameStarted s' = gameStarted s ∧ gameOver s' = gameOver s
  ∧ timeLeft s' = (timeLeft s - 1)%Z ∧ timerRef s' = timerRef s
  ∧ bubbles s' = bubbles s ∧ timers s' = timers s.
Proof.
  intros L. unfold countdown. apply Z.leb_gt in L. rewrite L.
  by rewrite commit_same.
Qed.

Lemma countdown_ends (s : State) :
  (timeLeft s <= 1)%Z →
  let s' := commit s (countdown s) in
  gameStarted s' = gameStarted s ∧ gameOver s' = true
  ∧ timeLeft s' = 0%Z ∧ timerRef s' = timerRef s
  ∧ bubbles s' = bubbles s.
Proof.
  intros L s'.
  destruct (commit_frame s (countdown s))
    as (F1 & F2 & _ & F4 & F5 & _ & _ & _ & _ & _ & F11 & _).
  fold s' in F1, F2, F4, F5, F11. rewrite F1, F2, F4, F5, F11.
  unfold countdown. apply Z.leb_le in L. rewrite L.
  destruct (timerRef s) eqn:?; cbn; destruct (bubbleTimerRef s); by cbn.
Qed.

(** Any other event of a running round leaves its clock alone. *)
Lemma step_running_other (hc : positive) (e : Event) (s : State) :
  Inv s → running s = true → timerRef s = Some hc →
  e ≠ PressPlayAgain → isTick hc e = false →
  let s' := step e s in
  gameStarted s' = gameStarted s ∧ gameOver s' = gameOver s
  ∧ timeLeft s' = timeLeft s ∧ timerRef s' = timerRef s.
Proof.
  intros [_ T] R Rc NP NT s'.
  destruct (commit_frame s (handle e s))
    as (F1 & F2 & _ & F4 & _ & _ & _ & _ & _ & _ & F11 & _).
  fold (step e s) in F1, F2, F4, F11. fold s' in F1, F2, F4, F11.
  rewrite F1, F2, F4, F11. clear s' F1 F2 F4 F11.
  pose proof R as [R1 R2%negb_true_iff]%andb_true_iff.
  destruct e as [| |g now|g|g now|h rnd]; cbn; try done.
  - by rewrite R1.
  - apply deliver_round.
  - apply deliver_round.
  - apply deliver_round.
  - cbn in NT. apply bool_decide_eq_false in NT.
    unfold fireTimer. destruct (timers s !! h) as [t|] eqn:E; [|done].
    destruct (T.(inv_running s) R)
      as (hs & hc' & hm & _ & Rc' & _ & Es & Ec & Em & A).
    assert (hc' = hc) as -> by congruence.
    destruct (decide (callback t = HideLaserCb)) as [C|C].
    + rewrite C. cbn. by destruct (repeats t).
    + destruct (A _ _ E C) as [->| [->| ->]]; [|done|].
      * assert (t = spawnTimer) as -> by congruence. done.
      * assert (t = moveTimer) as -> by congruence. done.
Qed.

(** Once the game is over, only "Play Again" changes the clock or the
    bubbles. *)
Lemma step_over (e : Event) (s : State) :
  Inv s → gameOver s = true → e ≠ PressPlayAgain →
  let s' := step e s in
  gameStarted s' = gameStarted s ∧ gameOver s' = true
  ∧ timeLeft s' = timeLeft s ∧ timerRef s' = timerRef s
  ∧ bubbles s' = bubbles s ∧ score s' = score s.
Proof.
  intros [_ T] O NP s'.
  assert (running s = false) as R
    by (unfold running; rewrite O; apply andb_false_r).
  destruct (commit_frame s (handle e s))
    as (F1 & F2 & F3 & F4 & F5 & _ & _ & _ & _ & _ & F11 & _).
  fold (step e s) in F1, F2, F3, F4, F5, F11.
  fold s' in F1, F2, F3, F4, F5, F11.
  rewrite F1, F2, F3, F4, F5, F11. clear s' F1 F2 F3 F4 F5 F11.
  destruct e as [| |g now|g|g now|h rnd]; cbn; try done.
  - by rewrite O, andb_false_r.
  - by rewrite deliver_stopped.
  - by rewrite deliver_stopped.
  - by rewrite deliver_stopped.
  - unfold fireTimer. destruct (timers s !! h) as [t|] eqn:E; [|done].
    destruct (T.(inv_stopped s) R) as [_ Hide].
    rewrite (Hide _ _ E). cbn. by destruct (repeats t).
Qed.

Lemma countTicks_cons (hc : positive) (e : Event) (es : list Event) :
  countTicks hc (e :: es)
  = ((if isTick hc e then 1 else 0) + countTicks hc es)%Z.
Proof.
  unfold countTicks. rewrite filter_cons.
  destruct (isTick hc e).
  - rewrite decide_True by done. cbn [length]. lia.
  - rewrite decide_False by (by intros []). lia.
Qed.

Lemma isTick_true (hc : positive) (e : Event) :
  isTick hc e = true → ∃ rnd, e = TimerFired hc rnd.
Proof.
  destruct e; cbn; try done. intros ->%bool_decide_eq_true. eauto.
Qed.

(** The clock along any sequence of events without "Play Again". *)
Lemma round_trace (hc : positive) (es : list Event) (s : State) :
  Inv s → PressPlayAgain ∉ es →
  timerRef s = Some hc → gameStarted s = true →
  let n := countTicks hc es in
  let s' := run es s in
  timerRef s' = Some hc ∧ gameStarted s' = true
  ∧ (gameOver s = true →
     gameOver s' = true ∧ timeLeft s' = timeLeft s ∧ bubbles s' = bubbles s)
  ∧ (gameOver s = false →
     ((n < timeLeft s)%Z →
      gameOver s' = false ∧ timeLeft s' = (timeLeft s - n)%Z)
     ∧ ((timeLeft s <= n)%Z → gameOver s' = true ∧ timeLeft s' = 0%Z)).
Proof.
  revert s. induction es as [|e es IH]; intros s I NP Rc G; cbn zeta.
  - cbn. split_and!; try done.
    intros O. unfold countTicks. cbn.
    destruct I as [D _].
    assert (running s = true) as R by (unfold running; by rewrite G, O).
    pose proof (D.(inv_time_running s) R).
    split; intros ?; [split; [done|lia]|lia].
  - apply not_elem_of_cons in NP as [NP NPs].
    assert (e ≠ PressPlayAgain) as NP' by congruence.
    pose proof (Inv_step e s I) as I1.
    rewrite countTicks_cons. cbn [run foldl].
    fold (run es (step e s)).
    destruct (gameOver s) eqn:O.
    + destruct (step_over e s I O NP') as (F1 & F2 & F3 & F4 & F5 & _).
      destruct (IH (step e s) I1 NPs) as (H1 & H2 & H3 & _);
        [congruence..|].
      destruct (H3 F2) as (K1 & K2 & K3).
      split_and!; try done. intros _. split_and!; congruence.
    + assert (running s = true) as R by (unfold running; by rewrite G, O).
      destruct (isTick hc e) eqn:Tk.
      * apply isTick_true in Tk as [rnd ->].
        rewrite (step_tick hc rnd s I R Rc) in *.
        destruct (Z.le_gt_cases (timeLeft s) 1) as [L|L].
        -- destruct (countdown_ends s L) as (F1 & F2 & F3 & F4 & F5).
           destruct (IH _ I1 NPs) as (H1 & H2 & H3 & _); [congruence..|].
           destruct (H3 F2) as (K1 & K2 & K3).
           split_and!; try done. intros _.
           assert (0 <= countTicks hc es)%Z by (unfold countTicks; lia).
           split; [lia|]. intros _. split; congruence.
        -- destruct (countdown_continues s L) as (F1 & F2 & F3 & F4 & _).
           destruct (IH _ I1 NPs) as (H1 & H2 & _ & H4); [congruence..|].
           destruct H4 as [K1 K2]; [congruence|].
           split_and!; try done. intros _. rewrite F3 in K1, K2. split.
           ++ intros Lt. destruct K1 as [? ->]; [lia|]. split; [done|lia].
           ++ intros Le. apply K2. lia.
      * destruct (step_running_other hc e s I R Rc NP' Tk)
          as (F1 & F2 & F3 & F4).
        destruct (IH _ I1 NPs) as (H1 & H2 & _ & H4); [congruence..|].
        destruct H4 as [K1 K2]; [congruence|].
        split_and!; try done. intros _. rewrite F3 in K1, K2. split.
        -- intros Lt. apply K1. lia.
        -- intros Le. apply K2. lia.
Qed.

Lemma start_from_idle (s : State) :
  gameStarted s = false → gameOver s = false →
  let s0 := step PressStartGame s in
  gameStarted s0 = true ∧ gameOver s0 = false ∧ timeLeft s0 = 120%Z
  ∧ score s0 = 0%Z ∧ bubbles s0 = [] ∧ laserVisible s0 = false
  ∧ bubbleIdRef s0 = 1%Z
  ∧ bubbleTimerRef s0 = Some (nextTimerId s)
  ∧ timerRef s0 = Some (Pos.succ (nextTimerId s)).
Proof.
  intros G O s0.
  destruct (commit_frame s (handle PressStartGame s))
    as (F1 & F2 & F3 & F4 & F5 & F6 & _ & _ & _ & F10 & F11 & F12 & _).
  fold (step PressStartGame s) in *. fold s0 in F1, F2, F3, F4, F5, F6.
  fold s0 in F10, F11, F12.
  rewrite F1, F2, F3, F4, F5, F6, F10, F11, F12. cbn. by rewrite G, O.
Qed.

Lemma stopped_not_active (cb : Callback) (s : State) :
  TimerInv s → running s = false → cb ≠ HideLaserCb → ¬ active cb s.
Proof.
  intros T R N (h & t & E & C).
  destruct (T.(inv_stopped s) R) as [_ Hide].
  rewrite (Hide _ _ E) in C. congruence.
Qed.

(** C5. From a reachable state in which the game has not started, press
    "Start Game" and let any events follow except "Play Again"; count the
    firings [n] of the round's countdown timer among them.  The time left
    is always within [0, 120].  While [n < 120] the round is still running
    with [120 - n] seconds left.  From the 120th firing on the game is
    over with 0 seconds left, neither a spawn timer nor a countdown timer
    is active, and any further event (a due timer, a gesture, "Start
    Game") leaves the game over, the time at 0 and the bubbles as they
    are. *)
Theorem round_lifecycle (s : State) :
  reachable s → gameStarted s = false →
  let s0 := step PressStartGame s in
  running s0 = true ∧ timeLeft s0 = 120%Z
  ∧ ∃ hc, timerRef s0 = Some hc
    ∧ ∀ es, PressPlayAgain ∉ es →
        let n := countTicks hc es in
        let s' := run es s0 in
        (0 <= timeLeft s' <= 120)%Z
        ∧ ((n < 120)%Z →
           running s' = true ∧ timeLeft s' = (120 - n)%Z)
        ∧ ((120 <= n)%Z →
           gameStarted s' = true ∧ gameOver s' = true
           ∧ timeLeft s' = 0%Z
           ∧ ¬ active SpawnBubbleCb s' ∧ ¬ active CountdownCb s'
           ∧ ∀ e, e ≠ PressPlayAgain →
               gameOver (step e s') = true
               ∧ timeLeft (step e s') = 0%Z
               ∧ bubbles (step e s') = bubbles s').
Proof.
  intros Re G s0.
  pose proof (reachable_Inv s Re) as I.
  assert (gameOver s = false) as O.
  { destruct I as [D _]. destruct (gameOver s) eqn:O; [|done].
    rewrite (D.(inv_over_started s) O) in G. done. }
  destruct (start_from_idle s G O)
    as (G0 & O0 & L0 & _ & _ & _ & _ & _ & Rc0).
  fold s0 in G0, O0, L0, Rc0.
  pose proof (Inv_step PressStartGame s I) as I0. fold s0 in I0.
  split; [unfold running; by rewrite G0, O0|]. split; [done|].
  exists (Pos.succ (nextTimerId s)). split; [done|].
  intros es NP n s'.
  pose proof (Inv_run es s0 I0) as I'. fold s' in I'.
  destruct (round_trace _ es s0 I0 NP Rc0 G0) as (H1 & H2 & _ & H4).
  fold s' in H1, H2, H4. fold n in H4.
  destruct (H4 O0) as [K1 K2]. rewrite L0 in K1, K2.
  split; [|split].
  - destruct I' as [D _]. apply D.
  - intros Lt. destruct (K1 Lt) as [O' L']. split; [|done].
    unfold running. by rewrite H2, O'.
  - intros Le. destruct (K2 Le) as [O' L'].
    assert (running s' = false) as R'
      by (unfold running; rewrite O'; apply andb_false_r).
    split_and!; try done.
    + apply stopped_not_active; [apply I'|done..].
    + apply stopped_not_active; [apply I'|done..].
    + intros e NE.
      destruct (step_over e s' I' O' NE) as (_ & F2 & F3 & _ & F5 & _).
      split_and!; congruence.
Qed.

(** ** Gestures and the laser *)

(** While the round runs, every gesture end fires the laser: the release
    prop of the game area is [handleTap] itself. *)
Lemma release_fires_while_running (g : GestureState) (now : Z) (s : State) :
  running s = true → step (ResponderRelease g now) s = fireLaser s s.
Proof.
  intros R. unfold step, handle, deliver.
  rewrite props_release, R. cbn [invoke].
  rewrite handleTap_running by done.
  apply commit_same; symmetry; apply fireLaser_flags.
Qed.

(** Outside a running round a gesture end does nothing. *)
Lemma release_ignored_when_stopped (g : GestureState) (now : Z) (s : State) :
  running s = false → step (ResponderRelease g now) s = s.
Proof.
  intros R. unfold step, handle. rewrite deliver_stopped by done.
  by apply commit_same.
Qed.

(** Once a round has stopped no periodic timer is active. *)
Lemma periodic_timers_stop (s : State) :
  reachable s → running s = false →
  ¬ active SpawnBubbleCb s ∧ ¬ active CountdownCb s ∧ ¬ active MoveCb s.
Proof.
  intros [_ T]%reachable_Inv R.
  split_and!; by apply stopped_not_active.
Qed.

(** ** Starting a round *)

(** C9.  The component invokes start() in one place, the press of "Start
    Game", and that control exists only in the start overlay.  In a state
    where the game has started (running or over) the press is a no-op:
    the state and the timers are exactly those of the untouched state.
    From a reachable state where it has not started, no periodic timer is
    active, and the press gives a fresh round (score 0, 120 seconds, no
    bubbles, laser hidden, id counter 1) whose periodic timers are
    exactly one spawn, one countdown and one motion timer, all three
    created by this press. *)
Theorem start_only_from_idle (s : State) :
  reachable s →
  (gameStarted s = true → step PressStartGame s = s)
  ∧ (gameStarted s = false →
     (∀ h t, timers s !! h = Some t → callback t = HideLaserCb)
     ∧ let s' := step PressStartGame s in
       running s' = true ∧ score s' = 0%Z ∧ timeLeft s' = 120%Z
       ∧ bubbles s' = [] ∧ laserVisible s' = false ∧ bubbleIdRef s' = 1%Z
       ∧ ∃ hs hc hm,
           bubbleTimerRef s' = Some hs ∧ timerRef s' = Some hc
           ∧ moveInterval s' = Some hm
           ∧ timers s !! hs = None ∧ timers s !! hc = None
           ∧ timers s !! hm = None
           ∧ timers s' !! hs = Some spawnTimer
           ∧ timers s' !! hc = Some countdownTimer
           ∧ timers s' !! hm = Some moveTimer
           ∧ ∀ h t, timers s' !! h = Some t → callback t ≠ HideLaserCb →
                    h = hs ∨ h = hc ∨ h = hm).
Proof.
  intros Re. pose proof (reachable_Inv s Re) as I. split.
  - intros G. unfold step, handle. rewrite G. cbn. by apply commit_same.
  - intros G.
    assert (gameOver s = false) as O.
    { destruct I as [D _]. destruct (gameOver s) eqn:O; [|done].
      rewrite (D.(inv_over_started s) O) in G. done. }
    assert (running s = false) as R by (unfold running; by rewrite G).
    destruct I as [D T].
    destruct (T.(inv_stopped s) R) as [M Hide]. split; [exact Hide|].
    intros s'.
    destruct (start_from_idle s G O)
      as (G' & O' & L' & S' & B' & V' & C' & Rs' & Rc').
    fold s' in G', O', L', S', B', V', C', Rs', Rc'.
    assert (running s' = true) as R' by (unfold running; by rewrite G', O').
    split_and!; try done.
    pose proof (Inv_step PressStartGame s (conj D T)) as [_ T'].
    fold s' in T'.
    destruct (T'.(inv_running s') R')
      as (hs & hc & hm & Rs & Rc & Rm & Es & Ec & Em & A).
    exists hs, hc, hm.
    assert (∀ h, (nextTimerId s <= h)%positive → timers s !! h = None)
      as Fresh.
    { intros h Le. destruct (timers s !! h) as [t|] eqn:E; [|done].
      pose proof (T.(inv_fresh s) _ _ E). lia. }
    assert (moveInterval s' = Some (Pos.succ (Pos.succ (nextTimerId s))))
      as Rm'.
    { unfold s', step, handle. rewrite G, O. cbn [negb andb].
      unfold commit. cbn. rewrite G.
      rewrite bool_decide_eq_false_2 by (intros [? ?]; congruence).
      unfold motionCleanup, motionEffect. cbn. by rewrite M. }
    split_and!; try done.
    + apply Fresh. assert (hs = nextTimerId s) as -> by congruence. lia.
    + apply Fresh. assert (hc = Pos.succ (nextTimerId s)) as ->
        by congruence. lia.
    + apply Fresh.
      assert (hm = Pos.succ (Pos.succ (nextTimerId s))) as ->
        by congruence. lia.
Qed.

(** * More of the component *)

(** ** Which handler runs *)

Lemma deliver_outcome (prop : string) (g : GestureState) (now : Z)
    (s : State) :
  deliver prop g now s = s
  ∨ running s = true
    ∧ (prop = "onResponderGrant"
       ∧ deliver prop g now s = onPanResponderGrant g now s
       ∨ prop = "onResponderMove"
         ∧ deliver prop g now s = onPanResponderMove g s
       ∨ prop = "onResponderRelease"
         ∧ deliver prop g now s = fireLaser s s).
Proof.
  unfold deliver, gameAreaProps, spread.
  destruct (running s) eqn:R;
    [|left; by rewrite lookup_union_None_2 by apply lookup_empty].
  destruct (_ !! prop) as [h|] eqn:E; [|by left].
  apply lookup_union_Some_raw in E as [E|[N E]].
  - apply lookup_insert_Some in E as [[_ <-]|[_ E]]; [by left|].
    apply lookup_singleton_Some in E as [<- <-]. cbn.
    rewrite handleTap_running by done. right. split; [done|]. auto.
  - unfold panHandlers in E.
    apply lookup_insert_Some in E as [[_ <-]|[_ E]]; [by left|].
    apply lookup_insert_Some in E as [[_ <-]|[_ E]]; [by left|].
    apply lookup_insert_Some in E as [[<- <-]|[_ E]];
      [right; split; [done|]; auto|].
    apply lookup_insert_Some in E as [[<- <-]|[_ E]];
      [right; split; [done|]; auto|].
    apply lookup_singleton_Some in E as [_ <-]. cbn.
    left. apply onPanResponderRelease_idle.
Qed.

Lemma handle_outcome (e : Event) (s : State) :
  Inv s → wellFormed e → outcome s e (handle e s).
Proof.
  intros [D T] WF. destruct e as [| |g now|g|g now|h rnd]; unfold handle.
  - destruct (negb (gameStarted s) && negb (gameOver s)) eqn:E;
      [|constructor].
    apply andb_true_iff in E as [E1%negb_true_iff E2%negb_true_iff].
    by constructor.
  - destruct (gameOver s) eqn:E; by constructor.
  - destruct (deliver_outcome "onResponderGrant" g now s)
      as [->|[R [[_ ->]|[[[=] _]|[[=] _]]]]]; by constructor.
  - destruct (deliver_outcome "onResponderMove" g 0%Z s)
      as [->|[R [[[=] _]|[[_ ->]|[[=] _]]]]]; by constructor.
  - destruct (deliver_outcome "onResponderRelease" g now s)
      as [->|[R [[[=] _]|[[[=] _]|[_ ->]]]]]; by constructor.
  - unfold fireTimer. destruct (timers s !! h) as [t|] eqn:E; [|constructor].
    destruct (decide (callback t = HideLaserCb)) as [C|C].
    + pose proof (T.(inv_laser s) _ _ E C) as Rl.
      destruct (T.(inv_laser_ref s) _ Rl) as [_ Ht].
      assert (t = hideLaserTimer) as -> by (by apply Ht).
      exact (out_hide s h rnd E).
    + destruct (running s) eqn:R.
      2: { destruct (T.(inv_stopped s) R) as [_ Hide].
           by destruct (C (Hide _ _ E)). }
      destruct (T.(inv_running s) R)
        as (hs & hc & hm & Rs & Rc & Rm & Es & Ec & Em & A).
      destruct WF as [W0 W1].
      destruct (A _ _ E C) as [->| [->| ->]].
      * assert (t = spawnTimer) as -> by congruence. cbn. by constructor.
      * assert (t = countdownTimer) as -> by congruence. cbn.
        by apply out_countdown.
      * assert (t = moveTimer) as -> by congruence. cbn.
        by apply out_motion.
Qed.

(** What a handler does to the bubbles, the score and the id counter. *)
Lemma outcome_round (e : Event) (s s' : State) :
  DataInv s → outcome s e s' →
  (bubbles s' = bubbles s ∧ score s' = score s
   ∧ bubbleIdRef s' = bubbleIdRef s)
  ∨ (bubbles s' = [] ∧ score s' = 0%Z ∧ bubbleIdRef s' = 1%Z)
  ∨ (∃ laserX,
       bubbles s' = filter (λ b, ¬ isHit laserX b) (bubbles s)
       ∧ score s'
         = (score s
            + Z.of_nat (length (filter (λ b, isHit laserX b)
                                  (bubbles s))))%Z
       ∧ bubbleIdRef s' = bubbleIdRef s)
  ∨ (∃ rnd, 0 <= rnd ∧ rnd < 1
            ∧ bubbles s' = bubbles s ++ [newBubble rnd s]
            ∧ score s' = score s
            ∧ bubbleIdRef s' = (bubbleIdRef s + 1)%Z)
  ∨ (bubbles s' = filter (λ b, Qltb (-60) (Bubble.y b))
                    (risen <$> bubbles s)
     ∧ score s' = score s ∧ bubbleIdRef s' = bubbleIdRef s).
Proof.
  intros D O. destruct O.
  - by left.
  - right. left. done.
  - right. left. unfold resetGame. cbn.
    destruct (timerRef s); cbn; destruct (bubbleTimerRef s); by cbn.
  - by left.
  - by left.
  - right. right. left. exists (gunCenterX s).
    destruct (fireLaser_checkHits s s) as [-> ->].
    destruct (fireLaser_untouched s s) as (_ & _ & _ & _ & _ & _ & -> & _).
    rewrite checkHits_bubbles, checkHits_score.
    split; [|done]. apply remove_by_id, D.
  - right. right. right. left. exists rnd. by split_and!.
  - left. unfold countdown. destruct (_ <=? _)%Z; [|done].
    destruct (timerRef s); cbn; destruct (bubbleTimerRef s); by cbn.
  - right. right. right. right. done.
  - by left.
Qed.

Lemma step_round (e : Event) (s : State) :
  Inv s → wellFormed e →
  let s' := step e s in
  (bubbles s' = bubbles s ∧ score s' = score s
   ∧ bubbleIdRef s' = bubbleIdRef s)
  ∨ (bubbles s' = [] ∧ score s' = 0%Z ∧ bubbleIdRef s' = 1%Z)
  ∨ (∃ laserX,
       bubbles s' = filter (λ b, ¬ isHit laserX b) (bubbles s)
       ∧ score s'
         = (score s
            + Z.of_nat (length (filter (λ b, isHit laserX b)
                                  (bubbles s))))%Z
       ∧ bubbleIdRef s' = bubbleIdRef s)
  ∨ (∃ rnd, 0 <= rnd ∧ rnd < 1
            ∧ bubbles s' = bubbles s ++ [newBubble rnd s]
            ∧ score s' = score s
            ∧ bubbleIdRef s' = (bubbleIdRef s + 1)%Z)
  ∨ (bubbles s' = filter (λ b, Qltb (-60) (Bubble.y b))
                    (risen <$> bubbles s)
     ∧ score s' = score s ∧ bubbleIdRef s' = bubbleIdRef s).
Proof.
  intros I WF s'.
  destruct (commit_frame s (handle e s))
    as (_ & _ & F3 & _ & F5 & _ & _ & _ & _ & F10 & _).
  fold (step e s) in F3, F5, F10. fold s' in F3, F5, F10.
  rewrite F3, F5, F10.
  apply (outcome_round e); [apply I|by apply handle_outcome].
Qed.

(** ** Bubbles, ids and the score *)

Lemma Forall_sublist_of {A} (P : A → Prop) (l1 l2 : list A) :
  l1 `sublist_of` l2 → Forall P l2 → Forall P l1.
Proof.
  induction 1 as [|a l1 l2 S IH|a l1 l2 S IH]; [done|..].
  - intros [? ?]%Forall_cons. apply Forall_cons. auto.
  - intros [? ?]%Forall_cons. auto.
Qed.

Lemma ascending_sublist (l1 l2 : list Z) :
  l1 `sublist_of` l2 → ascending l2 → ascending l1.
Proof.
  induction 1 as [|a l1 l2 S IH|a l1 l2 S IH]; cbn; [done|..].
  - intros [F A]. split; [|by apply IH].
    by eapply Forall_sublist_of.
  - intros [_ A]. by apply IH.
Qed.

Lemma ascending_snoc (l : list Z) (c : Z) :
  ascending l → Forall (λ a, (a < c)%Z) l → ascending (l ++ [c]).
Proof.
  induction l as [|a l IH]; cbn; [done|].
  intros [F A] [Lt Fc]%Forall_cons. split; [|by apply IH].
  apply Forall_app. split; [done|]. by apply Forall_singleton.
Qed.

Lemma ascending_lookup (l : list Z) (i j : nat) (a b : Z) :
  ascending l → (i < j)%nat → l !! i = Some a → l !! j = Some b →
  (a < b)%Z.
Proof.
  revert i j. induction l as [|c l IH]; intros i j A Lt Ei Ej; [done|].
  destruct A as [F A]. destruct j as [|j]; [lia|]. cbn in Ej.
  destruct i as [|i].
  - cbn in Ei. injection Ei as ->.
    rewrite Forall_forall in F. apply F. by eapply list_elem_of_lookup_2.
  - cbn in Ei. eapply (IH i j); [done|lia|done..].
Qed.

Lemma risen_ids (bs : list Bubble.t) :
  Bubble.id <$> (risen <$> bs) = Bubble.id <$> bs.
Proof. by rewrite <- list_fmap_compose. Qed.

Lemma ascending_step (e : Event) (s : State) :
  Inv s → wellFormed e →
  ascending (Bubble.id <$> bubbles s) →
  ascending (Bubble.id <$> bubbles (step e s)).
Proof.
  intros I WF A.
  pose proof (step_round e s I WF) as SR. cbn zeta in SR.
  destruct SR
    as [(-> & _)
       |[(-> & _)
        |[(laserX & -> & _)
         |[(rnd & _ & _ & -> & _)|(-> & _)]]]].
  - done.
  - done.
  - eapply ascending_sublist; [|exact A].
    apply fmap_sublist, sublist_filter.
  - rewrite fmap_app. apply ascending_snoc; [done|].
    apply Forall_fmap, Forall_forall. intros b Hb. cbn.
    destruct I as [D _]. apply (D.(inv_ids_bound s)) in Hb. lia.
  - eapply ascending_sublist; [|exact A].
    rewrite <- (risen_ids (bubbles s)).
    apply fmap_sublist, sublist_filter.
Qed.

Lemma reachable_ascending (s : State) :
  reachable s → ascending (Bubble.id <$> bubbles s).
Proof.
  induction 1 as [|e s Re IH WF]; [done|].
  apply ascending_step; [by apply reachable_Inv|done..].
Qed.

(** X2. In every reachable state the live bubbles are listed in spawn
    order: a bubble further down the list has a larger id. *)
Theorem bubbles_in_spawn_order (s : State) (i j : nat) (a b : Bubble.t) :
  reachable s → (i < j)%nat →
  bubbles s !! i = Some a → bubbles s !! j = Some b →
  (Bubble.id a < Bubble.id b)%Z.
Proof.
  intros A%reachable_ascending Lt Ei Ej.
  eapply (ascending_lookup _ i j); [exact A|done|..];
    rewrite list_lookup_fmap; [by rewrite Ei|by rewrite Ej].
Qed.

(** A property of bubbles that the spawner establishes and a motion tick
    keeps for the bubbles it keeps holds for all live bubbles. *)
Lemma Forall_bubbles_step (P : Bubble.t → Prop) (e : Event) (s : State) :
  (∀ rnd st, 0 <= rnd → rnd < 1 → P (newBubble rnd st)) →
  (∀ b, P b → -60 < Bubble.y b - 2 → P (risen b)) →
  Inv s → wellFormed e →
  Forall P (bubbles s) → Forall P (bubbles (step e s)).
Proof.
  intros New Up I WF F.
  pose proof (step_round e s I WF) as SR. cbn zeta in SR.
  destruct SR
    as [(-> & _)
       |[(-> & _)
        |[(laserX & -> & _)
         |[(rnd & R0 & R1 & -> & _)|(-> & _)]]]].
  - done.
  - constructor.
  - eapply Forall_sublist_of; [apply sublist_filter|done].
  - apply Forall_app. split; [done|]. apply Forall_singleton. by apply New.
  - apply Forall_forall. intros b' Hb'.
    apply list_elem_of_filter in Hb' as [L Hb'].
    apply list_elem_of_fmap in Hb' as (b & -> & Hb).
    apply Is_true_true, Qltb_lt in L. cbn in L.
    rewrite Forall_forall in F. apply Up; auto.
Qed.

Lemma reachable_Forall_bubbles (P : Bubble.t → Prop) (s : State) :
  (∀ rnd st, 0 <= rnd → rnd < 1 → P (newBubble rnd st)) →
  (∀ b, P b → -60 < Bubble.y b - 2 → P (risen b)) →
  reachable s → Forall P (bubbles s).
Proof.
  intros New Up. induction 1 as [|e s Re IH WF]; [constructor|].
  apply Forall_bubbles_step; [done..|by apply reachable_Inv|done|done].
Qed.

(** X3. On a window at least 60 wide, every live bubble of a reachable
    state has radius 30, lies inside the window horizontally and not
    below its spawn height; so the box the [Bubble] component draws for
    it, [2 * radius] wide from [x], stays between the window's left and
    right edges.  On a window more than 40 high its [y] is above -60, so
    the box is never wholly above the top edge. *)
Theorem live_bubbles_are_on_screen (s : State) (b : Bubble.t) :
  60 <= screenWidth → reachable s → b ∈ bubbles s →
  let box :=
    BubbleComponent.render (Bubble.x b) (Bubble.y b) (Bubble.radius b) in
  wellPlaced b
  ∧ 0 <= BubbleComponent.left box
  ∧ BubbleComponent.left box + BubbleComponent.width box <= screenWidth
  ∧ BubbleComponent.width box == 60
  ∧ BubbleComponent.height box == 60
  ∧ (40 < screenHeight →
     0 < BubbleComponent.top box + BubbleComponent.height box).
Proof.
  intros W Re Hb box.
  pose proof (reachable_Forall_bubbles
                (λ b, wellPlaced b ∧ (40 < screenHeight → -60 < Bubble.y b))
                s) as F.
  rewrite Forall_forall in F.
  destruct (F) with (x := b) as [(Rd & X0 & X1 & Y1) Y0]; [..|done|done|].
  - intros rnd st R0 R1. unfold wellPlaced. cbn. split_and!; try nra.
    done.
  - intros c [(Rd & X0 & X1 & Y1) Y0] L. unfold wellPlaced. cbn.
    split_and!; try done. lra.
  - unfold box. cbn. rewrite Rd.
    split_and!; [done|done|lra|lra|lra|].
    intros Ht. specialize (Y0 Ht). lra.
Qed.

(** ** Timers *)

Lemma guarded_clear (o : option positive) (s : State) :
  match o with Some _ => clearInterval o s | None => s end
  = clearInterval o s.
Proof. by destruct o. Qed.

Lemma clearInterval_lookup (o : option positive) (s : State) (h : positive)
    (t : Timer) :
  timers (clearInterval o s) !! h = Some t
  ↔ timers s !! h = Some t ∧ o ≠ Some h.
Proof.
  destruct o as [i|]; cbn.
  - rewrite lookup_delete_Some. split; intros [? ?]; split; congruence.
  - split; [by intros ?|by intros [? _]].
Qed.

Lemma unmount_lookup (s : State) (h : positive) (t : Timer) :
  timers (unmount s) !! h = Some t →
  timers s !! h = Some t
  ∧ moveInterval s ≠ Some h ∧ timerRef s ≠ Some h
  ∧ bubbleTimerRef s ≠ Some h ∧ laserTimeoutRef s ≠ Some h.
Proof.
  unfold unmount, timersCleanup, motionCleanup, clearTimeout.
  rewrite !guarded_clear.
  set (s1 := clearInterval (moveInterval s) s).
  set (s2 := clearInterval (timerRef s1) s1).
  set (s3 := clearInterval (bubbleTimerRef s2) s2).
  destruct (clearInterval_frame (moveInterval s) s)
    as (_ & _ & _ & _ & _ & _ & _ & _ & _ & _ & A1 & A2 & A3 & _).
  destruct (clearInterval_frame (timerRef s1) s1)
    as (_ & _ & _ & _ & _ & _ & _ & _ & _ & _ & _ & B2 & B3 & _).
  destruct (clearInterval_frame (bubbleTimerRef s2) s2)
    as (_ & _ & _ & _ & _ & _ & _ & _ & _ & _ & _ & _ & C3 & _).
  fold s1 in A1, A2, A3, B2, B3, C3. fold s2 in B2, B3, C3. fold s3 in C3.
  intros E.
  apply clearInterval_lookup in E as [E N4].
  apply clearInterval_lookup in E as [E N3].
  apply clearInterval_lookup in E as [E N2].
  apply clearInterval_lookup in E as [E N1].
  split_and!; congruence.
Qed.

(** X4. Unmounting the screen in any reachable state leaves no timer
    active: the two cleanups cancel the motion interval, the countdown,
    the spawner and the pending laser timeout, and these are all there
    are; so no callback of the screen runs after the unmount. *)
Theorem unmount_cancels_every_timer (s : State) :
  reachable s →
  timers (unmount s) = ∅
  ∧ ∀ h rnd, fireTimer h rnd (unmount s) = unmount s.
Proof.
  intros [_ T]%reachable_Inv.
  assert (∀ h, timers (unmount s) !! h = None) as Gone.
  { intros h. destruct (timers (unmount s) !! h) as [t|] eqn:E; [|done].
    apply unmount_lookup in E as (E & N1 & N2 & N3 & N4). exfalso.
    destruct (decide (callback t = HideLaserCb)) as [C|C].
    - by apply N4, (T.(inv_laser s) _ t).
    - destruct (running s) eqn:R.
      + destruct (T.(inv_running s) R)
          as (hs & hc & hm & Rs & Rc & Rm & _ & _ & _ & A).
        destruct (A _ _ E C) as [->| [->| ->]]; done.
      + destruct (T.(inv_stopped s) R) as [_ Hide]. by apply C, (Hide h). }
  split.
  - apply map_eq. intros h. by rewrite Gone, lookup_empty.
  - intros h rnd. unfold fireTimer. by rewrite Gone.
Qed.

Lemma fireLaser_timers (render s : State) :
  let s' := fireLaser render s in
  nextTimerId s' = Pos.succ (nextTimerId s)
  ∧ laserTimeoutRef s' = Some (nextTimerId s)
  ∧ laserVisible s' = true
  ∧ timers s'
    = <[nextTimerId s := hideLaserTimer]>
        (timers (clearTimeout (laserTimeoutRef s) s)).
Proof.
  unfold fireLaser, clearTimeout. rewrite guarded_clear.
  destruct (checkHits_frame (gunCenterX render)
              (setLaserVisible true (clearInterval (laserTimeoutRef s) s)))
    as (_ & _ & _ & F4 & _ & _ & _ & _ & _ & _ & _ & _ & F13 & F14).
  destruct (clearInterval_frame (laserTimeoutRef s) s)
    as (_ & _ & _ & _ & _ & _ & _ & _ & _ & _ & _ & _ & _ & _ & N).
  cbn -[checkHits clearInterval] in *. rewrite F13, F14, N. done.
Qed.

(** X5. A fire event in a reachable state leaves exactly one laser timeout
    pending: the one it schedules, under a handle never used before and
    kept in [laserTimeoutRef]; an earlier pending one is cancelled, and
    the periodic timers of the round are untouched. *)
Theorem fireLaser_reschedules_the_timeout (render s : State) :
  reachable s →
  let s' := fireLaser render s in
  let h' := nextTimerId s in
  laserVisible s' = true
  ∧ laserTimeoutRef s' = Some h'
  ∧ timers s !! h' = None
  ∧ timers s' !! h' = Some hideLaserTimer
  ∧ (∀ h t, timers s' !! h = Some t → callback t = HideLaserCb → h = h')
  ∧ (∀ h t, callback t ≠ HideLaserCb →
            (timers s' !! h = Some t ↔ timers s !! h = Some t)).
Proof.
  intros [D T]%reachable_Inv s' h'.
  destruct (fireLaser_timers render s) as (N' & R' & V' & T').
  fold s' in N', R', V', T'. fold h' in R', T'.
  pose proof (TimerInv_fireLaser render s T) as TI. fold s' in TI.
  assert (timers s !! h' = None) as Fresh.
  { destruct (timers s !! h') as [t|] eqn:E; [|done].
    pose proof (T.(inv_fresh s) _ _ E). unfold h' in *. lia. }
  split_and!; try done.
  - by rewrite T', lookup_insert_eq.
  - intros h t E C. pose proof (TI.(inv_laser s') _ _ E C). congruence.
  - intros h t C. rewrite T'. unfold clearTimeout. split.
    + intros [[_ <-]|[_ E]]%lookup_insert_Some; [done|].
      by apply clearInterval_lookup in E as [E _].
    + intros E. apply lookup_insert_Some. right. split; [congruence|].
      apply clearInterval_lookup. split; [done|]. intros Rl.
      destruct (T.(inv_laser_ref s) _ Rl) as [_ Ht].
      rewrite (Ht _ E) in C. done.
Qed.

(** X6. Two shots in a row in a running round: the second cancels the
    first shot's timeout, so when that one would be due nothing happens
    and the laser stays visible; the second shot's timeout hides it.
    After a single shot its own timeout hides the laser. *)
Theorem second_shot_restarts_the_flash (g1 g2 : GestureState) (t1 t2 : Z)
    (rnd : Q) (s : State) :
  reachable s → running s = true →
  let s1 := step (ResponderRelease g1 t1) s in
  let s2 := step (ResponderRelease g2 t2) s1 in
  ∃ h1 h2,
    laserTimeoutRef s1 = Some h1 ∧ laserTimeoutRef s2 = Some h2
    ∧ h1 ≠ h2
    ∧ laserVisible s1 = true ∧ laserVisible s2 = true
    ∧ laserVisible (step (TimerFired h1 rnd) s1) = false
    ∧ step (TimerFired h1 rnd) s2 = s2
    ∧ laserVisible (step (TimerFired h2 rnd) s2) = false.
Proof.
  intros Re R s1 s2.
  assert (s1 = fireLaser s s) as E1
    by (by apply release_fires_while_running).
  assert (running s1 = true) as R1.
  { destruct (fireLaser_flags s s) as [G O].
    unfold running in *. by rewrite E1, G, O. }
  assert (s2 = fireLaser s1 s1) as E2
    by (by apply release_fires_while_running).
  destruct (fireLaser_timers s s) as (N1 & L1 & V1 & T1).
  destruct (fireLaser_timers s1 s1) as (N2 & L2 & V2 & T2).
  rewrite <- E1 in N1, L1, V1, T1. rewrite <- E2 in N2, L2, V2, T2.
  exists (nextTimerId s), (nextTimerId s1).
  assert (timers s1 !! nextTimerId s = Some hideLaserTimer) as A1
    by (by rewrite T1, lookup_insert_eq).
  assert (timers s2 !! nextTimerId s1 = Some hideLaserTimer) as A2
    by (by rewrite T2, lookup_insert_eq).
  assert (timers s2 !! nextTimerId s = None) as Gone.
  { rewrite T2, L1, N1. rewrite lookup_insert_ne by lia. cbn.
    apply lookup_delete_eq. }
  assert (∀ h st, timers st !! h = Some hideLaserTimer →
                  laserVisible (step (TimerFired h rnd) st) = false) as Hide.
  { intros h st E. unfold step.
    destruct (commit_frame st (handle (TimerFired h rnd) st))
      as (_ & _ & _ & _ & _ & -> & _).
    cbn. unfold fireTimer. by rewrite E. }
  split_and!; try done.
  - rewrite N1. lia.
  - by apply Hide.
  - unfold step, handle, fireTimer. rewrite Gone. by apply commit_same.
  - by apply Hide.
Qed.

Lemma size_bound (m : gmap positive Timer) (l : list positive) :
  (∀ h t, m !! h = Some t → h ∈ l) → size m ≤ length l.
Proof.
  intros In. rewrite <- length_map_to_list, <- (length_fmap fst).
  apply submseteq_length, NoDup_submseteq; [apply NoDup_fst_map_to_list|].
  intros h (p & -> & Hp)%list_elem_of_fmap. destruct p as [h t].
  apply elem_of_map_to_list in Hp. by eapply In.
Qed.

(** X7. The screen never holds more than four timers: in a reachable state
    at most the spawner, the countdown, the motion interval and one laser
    timeout are active, and outside a running round at most the laser
    timeout. *)
Theorem at_most_four_timers (s : State) :
  reachable s →
  activeTimers s ≤ 4
  ∧ (running s = false → activeTimers s ≤ 1).
Proof.
  intros [_ T]%reachable_Inv. unfold activeTimers.
  set (laser := match laserTimeoutRef s with Some h => [h] | None => [] end).
  assert (length laser ≤ 1) as L1
    by (unfold laser; destruct (laserTimeoutRef s); cbn; lia).
  assert (∀ h t, timers s !! h = Some t → callback t = HideLaserCb →
                 h ∈ laser) as InL.
  { intros h t E C. unfold laser.
    rewrite (T.(inv_laser s) _ _ E C). apply list_elem_of_singleton. done. }
  destruct (running s) eqn:R.
  - split; [|done].
    destruct (T.(inv_running s) R)
      as (hs & hc & hm & _ & _ & _ & _ & _ & _ & A).
    etrans; [apply (size_bound _ ([hs; hc; hm] ++ laser))|].
    + intros h t E. apply elem_of_app.
      destruct (decide (callback t = HideLaserCb)) as [C|C];
        [right; by eapply InL|left].
      destruct (A _ _ E C) as [->| [->| ->]]; set_solver.
    + rewrite length_app. cbn. lia.
  - destruct (T.(inv_stopped s) R) as [_ Hide].
    assert (size (timers s) ≤ 1); [|by split; [lia|]].
    etrans; [apply (size_bound _ laser)|done].
    intros h t E. eapply InL; [done|]. by eapply Hide.
Qed.

(** ** The gun, once more *)

Lemma clamp_cases (newX : Q) :
  60 <= screenWidth →
  let p := Qmax 0 (Qmin newX (screenWidth - gunWidth)) in
  (0 <= newX → newX <= screenWidth - 60 → p == newX)
  ∧ (newX <= 0 → p == 0)
  ∧ (screenWidth - 60 <= newX → p == screenWidth - 60).
Proof.
  intros W p. unfold p, gunWidth. split_and!.
  - intros L U. rewrite Q.min_l by done. by apply Q.max_r.
  - intros U. apply Q.max_l.
    apply (Qle_trans _ newX); [apply Q.le_min_l|done].
  - intros L. rewrite Q.min_r by done. apply Q.max_r. lra.
Qed.

Lemma step_grant_running (g : GestureState) (now : Z) (s : State) :
  running s = true →
  step (ResponderGrant g now) s = onPanResponderGrant g now s.
Proof.
  intros R. unfold step, handle, deliver. rewrite props_grant, R.
  cbn [invoke]. by apply commit_same.
Qed.

Lemma step_move_running (g : GestureState) (s : State) :
  running s = true → step (ResponderMove g) s = onPanResponderMove g s.
Proof.
  intros R. unfold step, handle, deliver. rewrite props_move, R.
  cbn [invoke]. by apply commit_same.
Qed.

(** X8. While the round runs on a window at least 60 wide, a gesture start
    or move puts the centre of the gun under the finger whenever the
    finger is at least half a gun width away from both edges; nearer to
    the left edge the gun stops at 0, nearer to the right edge at
    [screenWidth - 60].  A gesture start also records its time and place
    for the tap test. *)
Theorem gun_follows_the_finger (g : GestureState) (now : Z) (s : State) :
  60 <= screenWidth → running s = true →
  let started := step (ResponderGrant g now) s in
  let moved := step (ResponderMove g) s in
  (30 <= x0 g → x0 g <= screenWidth - 30 → gunCenterX started == x0 g)
  ∧ (x0 g <= 30 → gunPosition started == 0)
  ∧ (screenWidth - 30 <= x0 g → gunPosition started == screenWidth - 60)
  ∧ tapStartTime started = now ∧ tapStartX started = x0 g
  ∧ (30 <= moveX g → moveX g <= screenWidth - 30 →
     gunCenterX moved == moveX g)
  ∧ (moveX g <= 30 → gunPosition moved == 0)
  ∧ (screenWidth - 30 <= moveX g → gunPosition moved == screenWidth - 60)
  ∧ tapStartTime moved = tapStartTime s ∧ tapStartX moved = tapStartX s.
Proof.
  intros W R started moved. unfold started, moved.
  rewrite step_grant_running, step_move_running by done.
  unfold gunCenterX. cbn.
  destruct (clamp_cases (x0 g - gunWidth / 2) W) as (A1 & A2 & A3).
  destruct (clamp_cases (moveX g - gunWidth / 2) W) as (B1 & B2 & B3).
  unfold gunWidth, Qdiv in *. change (/ 2) with (1 # 2) in *.
  split_and!; try done.
  - intros L U. rewrite A1 by lra. lra.
  - intros U. apply A2. lra.
  - intros L. apply A3. lra.
  - intros L U. rewrite B1 by lra. lra.
  - intros U. apply B2. lra.
  - intros L. apply B3. lra.
Qed.

(** X9. In the second screen variant every drag starts again from the
    gun's first position, the centre of the window, wherever the gun was
    left: grant and move give the position [centre + dx], clamped to
    [0, screenWidth - 60]; a drag with no displacement puts the gun back
    at the centre. *)
Theorem drag_restarts_from_the_centre (g : GestureState) (st : DragGun.t) :
  60 <= screenWidth →
  let st' := DragGun.move g (DragGun.grant st) in
  let centre := screenWidth / 2 - 30 in
  DragGun.position st' = DragGun.position (DragGun.move g DragGun.mount)
  ∧ (- centre <= dx g → dx g <= centre →
     DragGun.position st' == centre + dx g)
  ∧ (dx g <= - centre → DragGun.position st' == 0)
  ∧ (centre <= dx g → DragGun.position st' == screenWidth - 60)
  ∧ (dx g == 0 → DragGun.position st' == centre).
Proof.
  intros W st' centre. unfold st', centre. cbn.
  unfold DragScreen.onPanResponderMove, DragScreen.onPanResponderGrant,
    DragGun.firstPosition. cbn.
  unfold gunWidth, Qdiv. change (/ 2) with (1 # 2).
  split; [done|].
  set (newX := screenWidth * (1 # 2) - 60 * (1 # 2) + dx g).
  destruct (Qltb newX 0) eqn:E1.
  - apply Qltb_lt in E1.
    destruct (Qltb (screenWidth - 60) 0) eqn:E2;
      [apply Qltb_lt in E2; lra|].
    unfold newX in E1. split_and!; intros; lra.
  - apply Qltb_ge in E1.
    destruct (Qltb (screenWidth - 60) newX) eqn:E2.
    + apply Qltb_lt in E2. unfold newX in E1, E2. split_and!; intros; lra.
    + apply Qltb_ge in E2. unfold newX in *. split_and!; intros; lra.
Qed.

(** ** The phases of the round *)

Lemma commit_flags (prev s : State) :
  gameStarted (commit prev s) = gameStarted s
  ∧ gameOver (commit prev s) = gameOver s.
Proof. destruct (commit_frame prev s) as (F1 & F2 & _). done. Qed.

Lemma phase_ext (s s' : State) :
  gameStarted s' = gameStarted s → gameOver s' = gameOver s →
  phase s' = phase s.
Proof. unfold phase. by intros -> ->. Qed.

(** X10. The round moves through its phases in one order only.  An event
    in a reachable state leaves the phase as it is, except: "Start Game"
    takes Idle to Running; the firing of the countdown timer with one
    second left takes Running to GameOver; "Play Again" takes GameOver to
    Idle. *)
Theorem phases_follow_the_cycle (e : Event) (s : State) :
  reachable s → wellFormed e →
  phase (step e s) = phase s
  ∨ (phase s = Idle ∧ e = PressStartGame ∧ phase (step e s) = Running)
  ∨ (phase s = Running
     ∧ (∃ h rnd, e = TimerFired h rnd ∧ timerRef s = Some h)
     ∧ timeLeft s = 1%Z ∧ phase (step e s) = GameOver)
  ∨ (phase s = GameOver ∧ e = PressPlayAgain ∧ phase (step e s) = Idle).
Proof.
  intros Re WF. pose proof (reachable_Inv s Re) as I.
  destruct (commit_flags s (handle e s)) as [G O].
  fold (step e s) in G, O.
  rewrite (phase_ext _ _ G O).
  destruct (handle_outcome e s I WF)
    as [e|G0 O0|O0|g now R|g R|g now R|h rnd R Rs R0 R1|h rnd R Rc
       |h rnd R Rm|h rnd E].
  - by left.
  - right. left. unfold phase. cbn. by rewrite G0, O0.
  - right. right. right. unfold phase, resetGame. rewrite O0. cbn.
    destruct (timerRef s); cbn; destruct (bubbleTimerRef s); by cbn.
  - by left.
  - by left.
  - left. destruct (fireLaser_flags s s) as [G' O']. by apply phase_ext.
  - by left.
  - pose proof R as [R1 R2%negb_true_iff]%andb_true_iff.
    unfold countdown. destruct (timeLeft s <=? 1)%Z eqn:L.
    + right. right. left. apply Z.leb_le in L.
      destruct I as [D _]. pose proof (D.(inv_time_running s) R).
      unfold phase. rewrite R1, R2.
      split_and!; [done|by exists h, rnd|lia|].
      destruct (timerRef s); cbn; destruct (bubbleTimerRef s); by cbn.
    + by left.
  - by left.
  - left. by destruct (laserTimeoutRef s).
Qed.

(** X11. Outside a running round the screen is frozen: in a reachable
    state that is not running, a gesture does nothing at all, and the only
    timer that can still fire is the laser timeout, which hides the
    laser; score, bubbles, time left, gun position and phase change only
    through "Start Game" or "Play Again". *)
Theorem stopped_round_is_frozen (e : Event) (s : State) :
  reachable s → wellFormed e → running s = false →
  e ≠ PressStartGame → e ≠ PressPlayAgain →
  (step e s = s
   ∨ ∃ h rnd, e = TimerFired h rnd
              ∧ timers s !! h = Some hideLaserTimer
              ∧ step e s = setLaserVisible false (clearTimeout (Some h) s))
  ∧ (∀ g now, e = ResponderGrant g now ∨ e = ResponderMove g
              ∨ e = ResponderRelease g now → step e s = s)
  ∧ score (step e s) = score s ∧ bubbles (step e s) = bubbles s
  ∧ timeLeft (step e s) = timeLeft s
  ∧ gunPosition (step e s) = gunPosition s
  ∧ phase (step e s) = phase s.
Proof.
  intros Re WF R NS NP. pose proof (reachable_Inv s Re) as I.
  assert (step e s = s
          ∨ ∃ h rnd, e = TimerFired h rnd
              ∧ timers s !! h = Some hideLaserTimer
              ∧ step e s = setLaserVisible false (clearTimeout (Some h) s))
    as Cases.
  { unfold step.
    destruct (handle_outcome e s I WF)
      as [e|G0 O0|O0|g now R'|g R'|g now R'|h rnd R' Rs R0 R1|h rnd R' Rc
         |h rnd R' Rm|h rnd E]; try congruence.
    - left. by apply commit_same.
    - right. exists h, rnd. split_and!; try done. by apply commit_same. }
  split; [exact Cases|]. split.
  - intros g now Eg. destruct Cases as [->|(h & rnd & -> & _)]; [done|].
    by destruct Eg as [?|[?|?]].
  - destruct Cases as [->|(h & rnd & _ & _ & ->)]; [done|]. done.
Qed.

(** ** Shots and motion *)

Lemma isHit_with_y (laserX v : Q) (b : Bubble.t) :
  isHit laserX (Bubble.with_y v b) = isHit laserX b.
Proof. done. Qed.





(** ** The update queue *)

Lemma hitsUpdater_spec (laserX : Q) (bs : list Bubble.t) :
  hitsUpdater laserX bs
  = (filter (λ b, Bubble.id b ∉ Bubble.id <$> filter (λ b, isHit laserX b) bs)
       bs,
     if (0 <? hitsIn laserX bs)%Z then [hitsIn laserX bs] else []).
Proof. unfold hitsUpdater. by rewrite scanHits_spec. Qed.

(** [checkHits] is the function of [hitsUpdater] called once. *)
Lemma checkHits_hitsUpdater (laserX : Q) (s : State) :
  bubbles (checkHits laserX s) = (hitsUpdater laserX (bubbles s)).1
  ∧ score (checkHits laserX s)
    = foldl (λ prevScore hitCount, (prevScore + hitCount)%Z) (score s)
        (hitsUpdater laserX (bubbles s)).2.
Proof.
  rewrite hitsUpdater_spec, checkHits_bubbles, checkHits_score.
  split; [done|]. fold (hitsIn laserX (bubbles s)).
  destruct (0 <? hitsIn laserX (bubbles s))%Z eqn:E; cbn; [done|].
  apply Z.ltb_ge in E. unfold hitsIn in *. lia.
Qed.

(** When no other update is waiting, a render calls the function of the
    shot once and nothing stays in the queue: this is [checkHits]. *)
Lemma checkHits_single_update (laserX : Q) (s : State) :
  renderCells [SyncLane] (settled (bubbles s))
    [{| lane := SyncLane; action := hitsUpdater laserX |}] (score s)
  = (settled (bubbles (checkHits laserX s)), score (checkHits laserX s)).
Proof.
  destruct (checkHits_hitsUpdater laserX s) as [-> ->].
  unfold renderCells, updateReducer, settled. cbn.
  by destruct (hitsUpdater laserX (bubbles s)) as [bs calls].
Qed.

Lemma moveUpdater_moveBubbles (s : State) :
  moveUpdater (bubbles s) = (bubbles (moveBubbles s), []).
Proof. done. Qed.




(** ** Motion, tick after tick *)

Lemma moveBubbles_elem (s : State) (b' : Bubble.t) :
  b' ∈ bubbles (moveBubbles s)
  ↔ ∃ b, b ∈ bubbles s ∧ b' = risen b ∧ -60 < Bubble.y b - 2.
Proof.
  unfold moveBubbles. cbn. fold risen.
  rewrite list_elem_of_filter, list_elem_of_fmap. split.
  - intros [L (b & -> & Hb)]. apply Is_true_true, Qltb_lt in L.
    exists b. by split_and!.
  - intros (b & Hb & -> & L). split; [|by exists b].
    by apply Is_true_true, Qltb_lt.
Qed.

Lemma rise_succ (n : nat) : rise (S n) == rise n + 2.
Proof.
  unfold rise. rewrite Nat2Z.inj_succ, <- Z.add_1_r, inject_Z_plus.
  change (inject_Z 1) with 1. lra.
Qed.

Lemma rise_0 : rise 0 == 0.
Proof. reflexivity. Qed.

Lemma afterTicks_from (n : nat) (s : State) (b' : Bubble.t) :
  b' ∈ bubbles (afterTicks n s) →
  ∃ b, b ∈ bubbles s
       ∧ Bubble.id b' = Bubble.id b ∧ Bubble.x b' = Bubble.x b
       ∧ Bubble.radius b' = Bubble.radius b
       ∧ Bubble.y b' == Bubble.y b - rise n
       ∧ ((0 < n)%nat → -60 < Bubble.y b').
Proof.
  revert b'. induction n as [|n IH]; intros b' Hb'.
  - exists b'. split_and!; try done; [rewrite rise_0; lra|lia].
  - cbn in Hb'. fold (afterTicks n s) in Hb'.
    apply moveBubbles_elem in Hb' as (c & Hc & -> & L).
    destruct (IH c Hc) as (b & Hb & Ei & Ex & Er & Ey & _).
    exists b. cbn. split_and!; try done.
    rewrite rise_succ, Ey. lra.
Qed.

Lemma afterTicks_to (n : nat) (s : State) (b : Bubble.t) :
  b ∈ bubbles s → -60 < Bubble.y b - rise n →
  ∃ b', b' ∈ bubbles (afterTicks n s)
        ∧ Bubble.id b' = Bubble.id b ∧ Bubble.x b' = Bubble.x b
        ∧ Bubble.radius b' = Bubble.radius b
        ∧ Bubble.y b' == Bubble.y b - rise n.
Proof.
  induction n as [|n IH]; intros Hb L.
  - exists b. split_and!; try done. rewrite rise_0. lra.
  - rewrite rise_succ in L.
    destruct IH as (c & Hc & Ei & Ex & Er & Ey); [done|lra|].
    exists (risen c). split_and!; try done.
    + cbn. fold (afterTicks n s). apply moveBubbles_elem.
      exists c. split_and!; try done. rewrite Ey. lra.
    + cbn. rewrite rise_succ, Ey. lra.
Qed.

(** X15. Motion ticks add up.  After [n] motion ticks in a row the bubbles
    are the bubbles from before whose [y] lowered by [2 * n] is still
    above -60, each with that [y] and with its id, x and radius
    unchanged; once [n >= 1] and every bubble's [y - 2 * n] is at most
    -60, no bubble is left. *)
Theorem motion_ticks_add_up (n : nat) (s : State) :
  (∀ b', b' ∈ bubbles (afterTicks n s) →
         ∃ b, b ∈ bubbles s
              ∧ Bubble.id b' = Bubble.id b ∧ Bubble.x b' = Bubble.x b
              ∧ Bubble.radius b' = Bubble.radius b
              ∧ Bubble.y b' == Bubble.y b - rise n
              ∧ ((0 < n)%nat → -60 < Bubble.y b'))
  ∧ (∀ b, b ∈ bubbles s → -60 < Bubble.y b - rise n →
          ∃ b', b' ∈ bubbles (afterTicks n s)
                ∧ Bubble.id b' = Bubble.id b ∧ Bubble.x b' = Bubble.x b
                ∧ Bubble.radius b' = Bubble.radius b
                ∧ Bubble.y b' == Bubble.y b - rise n)
  ∧ ((0 < n)%nat →
     (∀ b, b ∈ bubbles s → Bubble.y b - rise n <= -60) →
     bubbles (afterTicks n s) = []).
Proof.
  split; [apply afterTicks_from|]. split; [apply afterTicks_to|].
  intros Pos Out.
  destruct (bubbles (afterTicks n s)) as [|b' l] eqn:E; [done|].
  assert (b' ∈ bubbles (afterTicks n s)) as Hb' by (rewrite E; left).
  apply afterTicks_from in Hb' as (b & Hb & _ & _ & _ & Ey & L).
  specialize (L Pos). specialize (Out b Hb). lra.
Qed.

(** ** Runs *)

Lemma reachable_run (es : list Event) (s : State) :
  reachable s → Forall wellFormed es → reachable (run es s).
Proof.
  revert s. induction es as [|e es IH]; intros s Re F; [done|].
  apply Forall_cons in F as [WF F]. cbn. apply IH; [|done].
  by constructor.
Qed.
End Proofs.

(** * The sample window *)

(** ** Gestures: a slow drag fires *)

(** C2 on the sample round, with a bubble in front of the spot where the
    drag ends.  The gesture lasts 1000 ms and moves 200 px, so it is a
    drag; its release fires all the same: the laser is shown, the bubble
    is removed and the score is 1.  The release handler built into the
    pan responder, which does compare duration and movement, is the one of
    the first render and never fires. *)
Theorem slow_drag_fires :
  let before :=
    @run phone
      [spawnAt270; ResponderGrant (touch 100 100) 0;
       ResponderMove (touch 100 300)] started in
  let after := @step phone (ResponderRelease (touch 100 300) 1000) before in
  running before = true
  ∧ (1000 - tapStartTime before)%Z = 1000%Z
  ∧ Qabs (300 - tapStartX before) == 200
  ∧ laserVisible before = false ∧ score before = 0%Z
  ∧ length (bubbles before) = 1%nat
  ∧ after = fireLaser before before
  ∧ laserVisible after = true ∧ score after = 1%Z ∧ bubbles after = []
  ∧ ∀ g now s, onPanResponderRelease (@initial phone) g now s = s.
Proof.
  cbn zeta. split_and!; [vm_compute; reflexivity..|].
  intros g now s. apply (@onPanResponderRelease_idle phone).
Qed.

(** A quick tap fires too, once. *)
Example quick_tap_fires :
  let s := @run phone quickTap started in
  laserVisible s = true
  ∧ timers s !! 4%positive = Some hideLaserTimer
  ∧ nextTimerId s = 5%positive.
Proof. vm_compute. by split_and!. Qed.

(** ** Timers: the laser timeout outlives the round *)

(** C8 on the sample round.  A shot in the last second leaves its hide
    timeout pending when the countdown ends the game: the timeout is still
    active, it still hides the laser after the game is over, and it stays
    scheduled across "Play Again" and into the next round. *)
Theorem laser_timeout_outlives_round :
  let over := @run phone lateShot started in
  let idle := @step phone PressPlayAgain over in
  let again := @step phone PressStartGame idle in
  gameOver over = true
  ∧ laserVisible over = true
  ∧ timers over !! 4%positive = Some hideLaserTimer
  ∧ laserVisible (@step phone (TimerFired 4 0) over) = false
  ∧ gameStarted idle = false
  ∧ timers idle !! 4%positive = Some hideLaserTimer
  ∧ running again = true
  ∧ timers again !! 4%positive = Some hideLaserTimer.
Proof. vm_compute. by split_and!. Qed.

(** ** Hits: a shot over a waiting motion tick scores twice *)

(** C1 on the sample round with one bubble, which stands in front of the
    gun.  A shot hits it: one bubble is removed and, when nothing else
    waits to be rendered, the score becomes 1.  When the shot arrives
    while a motion tick waits to be rendered, the function that
    [checkHits] passes to [setBubbles] is called twice, once in the render
    of the shot and once more when the skipped tick is rendered, and each
    call bumps the score: the one bubble is removed, only one bubble was
    ever spawned, and the score is 2. *)
Theorem shot_over_waiting_tick_scores_twice :
  let s := oneBubble in
  let laserX := gunCenterX s in
  let s' := fireLaserOverTick s s in
  running s = true ∧ score s = 0%Z ∧ bubbleIdRef s = 2%Z
  ∧ length (bubbles s) = 1%nat
  ∧ hitsIn laserX (bubbles s) = 1%Z
  ∧ @step phone (ResponderRelease (touch 195 195) 0) s = fireLaser s s
  ∧ bubbles (fireLaser s s) = [] ∧ score (fireLaser s s) = 1%Z
  ∧ bubbles s' = [] ∧ score s' = 2%Z ∧ bubbleIdRef s' = 2%Z
  ∧ laserVisible s' = true.
Proof. cbn zeta. split_and!; vm_compute; reflexivity. Qed.

(** ** Witnesses *)

Lemma fireLaser_frame_witness :
  NoDup (Bubble.id <$> bubbles (setBubbles twoClose started))
  ∧ bubbles (fireLaser (setGunPosition (-10) started)
               (setBubbles twoClose started)) = []
  ∧ gunPosition (fireLaser (setGunPosition (-10) started)
                   (setBubbles twoClose started))
    = gunPosition started
  ∧ timeLeft (fireLaser (setGunPosition (-10) started)
                (setBubbles twoClose started)) = 120%Z.
Proof.
  assert (NoDup (Bubble.id <$> bubbles (setBubbles twoClose started))) as ND.
  { refine (bool_decide_unpack _ _). vm_compute. exact I. }
  split; [exact ND|].
  destruct (fireLaser_frame (setGunPosition (-10) started) _ ND)
    as (B & _ & _ & G & T & _).
  rewrite B, G, T. vm_compute. by split_and!.
Defined.

Lemma spawnBubble_spec_witness :
  60 <= @screenWidth phone ∧ 0 <= 1 # 2 ∧ 1 # 2 < 1
  ∧ ∃ b, bubbles (@spawnBubble phone (1 # 2) started) = [b]
         ∧ 0 <= Bubble.x b ∧ Bubble.x b <= 330
         ∧ Bubble.id b = 1%Z.
Proof.
  assert (60 <= @screenWidth phone) as W by (cbn; lra).
  assert (0 <= 1 # 2) as R0 by lra.
  assert (1 # 2 < 1) as R1 by lra.
  split_and!; [exact W|exact R0|exact R1|].
  destruct (@spawnBubble_spec phone (1 # 2) started W R0 R1)
    as (b & B & X0 & X1 & _ & Rad & Id & _).
  exists b. rewrite Rad in X1. split_and!; [exact B|exact X0| |exact Id].
  cbn in X1. lra.
Defined.

Lemma round_lifecycle_witness :
  @reachable phone (@initial phone)
  ∧ gameStarted (@initial phone) = false
  ∧ gameOver (@run phone (ticks 120) started) = true
  ∧ timeLeft (@run phone (ticks 120) started) = 0%Z
  ∧ running (@run phone (ticks 119) started) = true.
Proof.
  pose proof (@reachable_initial phone) as Re.
  split; [exact Re|]. split; [reflexivity|].
  destruct (@round_lifecycle phone (@initial phone) Re eq_refl)
    as (_ & _ & hc & Ec & Tr).
  assert (hc = 2%positive) as -> by (vm_compute in Ec; congruence).
  assert (∀ n, PressPlayAgain ∉ ticks n) as NP.
  { intros n [[=] _]%elem_of_replicate. }
  destruct (Tr (ticks 120) (NP _)) as (_ & _ & Over).
  destruct (Tr (ticks 119) (NP _)) as (_ & Run & _).
  destruct Over as (_ & O & L & _); [vm_compute; discriminate|].
  destruct Run as (R & _); [vm_compute; reflexivity|].
  by split_and!.
Defined.

Lemma gun_clamped_witness :
  60 <= @screenWidth phone
  ∧ @inGunRange phone
      (gunPosition (@onPanResponderMove phone (touch 0 1000) started))
  ∧ @inGunRange phone
      (gunPosition (@onPanResponderGrant phone (touch (-50) 0) 0 started))
  ∧ @inGunRange phone (gunPosition started).
Proof.
  assert (60 <= @screenWidth phone) as W by (cbn; lra).
  split; [exact W|].
  destruct (@gun_clamped phone W) as (G & M & _ & _ & _ & _ & Re).
  split_and!; [apply M|apply G|apply Re].
  apply (@reachable_step phone); [apply (@reachable_initial phone)|exact I].
Defined.

Lemma start_only_from_idle_witness :
  @reachable phone started
  ∧ gameStarted started = true
  ∧ @step phone PressStartGame started = started.
Proof.
  assert (@reachable phone started) as Re.
  { apply (@reachable_step phone);
      [apply (@reachable_initial phone)|exact I]. }
  split; [exact Re|]. split; [reflexivity|].
  destruct (@start_only_from_idle phone started Re) as [Noop _].
  apply Noop. reflexivity.
Defined.

(** ** More witnesses *)

Lemma sample_reachable (es : list Event) :
  Forall (@wellFormed) es → @reachable phone (@run phone es started).
Proof.
  intros F. apply (@reachable_run phone); [|done].
  apply (@reachable_step phone); [apply (@reachable_initial phone)|exact I].
Qed.

Lemma started_reachable : @reachable phone started.
Proof.
  apply (@reachable_step phone); [apply (@reachable_initial phone)|exact I].
Qed.

Lemma afterDrag_reachable : @reachable phone afterDrag.
Proof. unfold afterDrag. apply sample_reachable. repeat constructor; cbn; lra. Qed.

Lemma twoSpawned_reachable : @reachable phone twoSpawned.
Proof. unfold twoSpawned. apply sample_reachable. repeat constructor; cbn; lra. Qed.

Lemma oneBubble_reachable : @reachable phone oneBubble.
Proof. unfold oneBubble. apply sample_reachable. repeat constructor; cbn; lra. Qed.

Lemma finished_reachable : @reachable phone finished.
Proof.
  unfold finished. apply sample_reachable, Forall_forall.
  intros e [-> _]%elem_of_replicate. cbn. lra.
Qed.

Lemma bubbles_in_spawn_order_witness :
  @reachable phone twoSpawned ∧ (0 < 1)%nat
  ∧ ∃ a b, bubbles twoSpawned !! 0%nat = Some a
           ∧ bubbles twoSpawned !! 1%nat = Some b
           ∧ (Bubble.id a < Bubble.id b)%Z.
Proof.
  split; [exact twoSpawned_reachable|]. split; [lia|].
  eexists _, _. split; [vm_compute; reflexivity|].
  split; [vm_compute; reflexivity|].
  eapply (@bubbles_in_spawn_order phone twoSpawned 0 1);
    [exact twoSpawned_reachable|lia|vm_compute; reflexivity
    |vm_compute; reflexivity].
Defined.

Lemma live_bubbles_are_on_screen_witness :
  60 <= @screenWidth phone ∧ @reachable phone oneBubble
  ∧ ∃ b, b ∈ bubbles oneBubble ∧ @wellPlaced phone b.
Proof.
  assert (60 <= @screenWidth phone) as W by (cbn; lra).
  split; [exact W|]. split; [exact oneBubble_reachable|].
  destruct (bubbles oneBubble) as [|b l] eqn:E;
    [vm_compute in E; discriminate|].
  exists b. assert (b ∈ bubbles oneBubble) as Hb by (rewrite E; left).
  rewrite <- E. split; [exact Hb|].
  apply (@live_bubbles_are_on_screen phone oneBubble b W
           oneBubble_reachable Hb).
Defined.

Lemma unmount_cancels_every_timer_witness :
  @reachable phone afterDrag
  ∧ size (timers afterDrag) = 4%nat
  ∧ timers (unmount afterDrag) = ∅.
Proof.
  split; [exact afterDrag_reachable|]. split; [vm_compute; reflexivity|].
  apply (@unmount_cancels_every_timer phone afterDrag afterDrag_reachable).
Defined.

Lemma fireLaser_reschedules_the_timeout_witness :
  @reachable phone afterDrag
  ∧ laserTimeoutRef afterDrag = Some 4%positive
  ∧ laserTimeoutRef (fireLaser afterDrag afterDrag) = Some 5%positive
  ∧ timers (fireLaser afterDrag afterDrag) !! 5%positive
    = Some hideLaserTimer.
Proof.
  split; [exact afterDrag_reachable|]. split; [vm_compute; reflexivity|].
  destruct (@fireLaser_reschedules_the_timeout phone afterDrag afterDrag
              afterDrag_reachable) as (_ & R & _ & T & _).
  split; [exact R|exact T].
Defined.

Lemma second_shot_restarts_the_flash_witness :
  @reachable phone started ∧ running started = true
  ∧ laserVisible (@run phone (twoShots ++ [TimerFired 4 0]) started) = true.
Proof.
  split; [exact started_reachable|]. split; [vm_compute; reflexivity|].
  destruct (@second_shot_restarts_the_flash phone (touch 100 100)
              (touch 100 100) 0 50 0 started started_reachable eq_refl)
    as (h1 & h2 & E1 & _ & _ & _ & V2 & _ & Same & _).
  assert (h1 = 4%positive) as -> by (vm_compute in E1; congruence).
  change (laserVisible
            (@step phone (TimerFired 4 0)
               (@step phone (ResponderRelease (touch 100 100) 50)
                  (@step phone (ResponderRelease (touch 100 100) 0)
                     started))) = true).
  rewrite Same. exact V2.
Defined.

Lemma at_most_four_timers_witness :
  @reachable phone afterDrag ∧ (activeTimers afterDrag ≤ 4)%nat.
Proof.
  split; [exact afterDrag_reachable|].
  apply (@at_most_four_timers phone afterDrag afterDrag_reachable).
Defined.

Lemma gun_follows_the_finger_witness :
  60 <= @screenWidth phone ∧ running started = true
  ∧ gunCenterX (@step phone (ResponderGrant (touch 200 200) 7) started)
    == 200
  ∧ gunPosition (@step phone (ResponderMove (touch 200 1000)) started)
    == 330.
Proof.
  assert (60 <= @screenWidth phone) as W by (cbn; lra).
  split; [exact W|]. split; [reflexivity|].
  destruct (@gun_follows_the_finger phone (touch 200 200) 7 started W
              eq_refl) as (C & _).
  destruct (@gun_follows_the_finger phone (touch 200 1000) 7 started W
              eq_refl) as (_ & _ & _ & _ & _ & _ & _ & M & _).
  split; [apply C; cbn; lra|].
  rewrite M; cbn; lra.
Defined.

Lemma drag_restarts_from_the_centre_witness :
  60 <= @screenWidth phone
  ∧ DragGun.position
      (@DragGun.move phone (touch 0 0)
         (@DragGun.grant phone
            (@DragGun.move phone (touch 0 100) (@DragGun.mount phone))))
    == 165.
Proof.
  assert (60 <= @screenWidth phone) as W by (cbn; lra).
  split; [exact W|].
  destruct (@drag_restarts_from_the_centre phone (touch 0 0)
              (@DragGun.move phone (touch 0 100) (@DragGun.mount phone)) W)
    as (_ & _ & _ & _ & Z0).
  rewrite Z0; reflexivity.
Defined.

Lemma phases_follow_the_cycle_witness :
  @reachable phone started ∧ @wellFormed PressStartGame
  ∧ @phase (@step phone PressStartGame started) = Running.
Proof.
  split; [exact started_reachable|]. split; [exact I|].
  destruct (@phases_follow_the_cycle phone PressStartGame started
              started_reachable I)
    as [E|[(E & _)|[(_ & (h & rnd & E & _) & _)|(_ & E & _)]]];
    [rewrite E; reflexivity|vm_compute in E; discriminate
    |discriminate|discriminate].
Defined.

Lemma stopped_round_is_frozen_witness :
  @reachable phone finished
  ∧ @wellFormed (ResponderMove (touch 0 300))
  ∧ running finished = false
  ∧ @step phone (ResponderMove (touch 0 300)) finished = finished.
Proof.
  split; [exact finished_reachable|]. split; [exact I|].
  assert (running finished = false) as R by (vm_compute; reflexivity).
  split; [exact R|].
  destruct (@stopped_round_is_frozen phone (ResponderMove (touch 0 300))
              finished finished_reachable I R)
    as (_ & G & _); [discriminate|discriminate|].
  apply (G (touch 0 300) 0%Z). right. left. reflexivity.
Defined.


